(** * frbpoppy: generation of a population of FRB sources

    A shallow embedding of [generate] from [do_populate.py], and the
    properties of it that the specification states.

    Python values are dynamically typed, so the arguments of [generate] are
    values of the inductive type [Py.value]; Python floats are IEEE binary64
    numbers and are modelled by Rocq's primitive floats.  The imported
    modules ([random], [math], [galacticops], [distributions]) are not part
    of the file: what they compute is a field of the record [Runtime],
    and every call of them is threaded through an explicit world (the
    interpreter's ambient state and the log of the calls made so far). *)

From Stdlib Require Import ZArith List Bool String Ascii Lia Floats.
From Stdlib Require Import DecimalString.
From Equations Require Import Equations.
From Equations.Prop Require Import Logic.
Import ListNotations.

Set Warnings "-inexact-float,-register-all".
Open Scope string_scope.
Open Scope Z_scope.

(* ===================================================================== *)
(** ** Python values, exceptions and the builtins the checks use *)
(* ===================================================================== *)

Module Py.

(** The exceptions that can leave [generate]. [Raised] stands for whatever
    an imported function raises. *)
Inductive exn : Type :=
| ValueError (m : string)
| TypeError (m : string)
| IndexError (m : string)
| Raised (what : string).

Inductive result (A : Type) : Type :=
| Ok (a : A)
| Err (e : exn).
Arguments Ok {A} a.
Arguments Err {A} e.

Definition is_ok {A} (r : result A) : bool :=
  match r with Ok _ => true | Err _ => false end.

Definition bind {A B} (r : result A) (k : A -> result B) : result B :=
  match r with Ok a => k a | Err e => Err e end.

(** The values an argument of [generate] is taken from: [None], booleans,
    integers, floats, strings, and lists and tuples of such values. *)
Inductive value : Type :=
| VNone
| VBool (b : bool)
| VInt (z : Z)
| VFloat (f : float)
| VStr (s : string)
| VList (l : list value)
| VTuple (l : list value).

(** The result of [float ** float]: a float, or a complex number when the
    base is negative and the exponent is not an integer. *)
Inductive num : Type :=
| NFloat (f : float)
| NComplex (re im : float).

Definition type_name (v : value) : string :=
  match v with
  | VNone => "NoneType"
  | VBool _ => "bool"
  | VInt _ => "int"
  | VFloat _ => "float"
  | VStr _ => "str"
  | VList _ => "list"
  | VTuple _ => "tuple"
  end.

(** [type(v) == int]: exact, so [True] is not an int here. *)
Definition type_is_int (v : value) : bool :=
  match v with VInt _ => true | _ => false end.

Definition type_is_bool (v : value) : bool :=
  match v with VBool _ => true | _ => false end.

Definition type_is_str (v : value) : bool :=
  match v with VStr _ => true | _ => false end.

(** [isinstance(v, (float, int))]: [bool] is a subclass of [int]. *)
Definition isinstance_float_int (v : value) : bool :=
  match v with VBool _ | VInt _ | VFloat _ => true | _ => false end.

(** Truth value testing, as [not v] uses it. *)
Definition truthy (v : value) : bool :=
  match v with
  | VNone => false
  | VBool b => b
  | VInt z => negb (z =? 0)
  | VFloat f => negb (f =? 0)%float
  | VStr s => negb (String.eqb s EmptyString)
  | VList l | VTuple l => match l with [] => false | _ :: _ => true end
  end.

(** The items of a string: its characters, as strings. (The checks tell the
    empty string from the others and look no further.) *)
Definition chars (s : string) : list value :=
  map (fun c => VStr (String c EmptyString)) (list_ascii_of_string s).

(** [for par in v]: the items, or the TypeError of a value that is not
    iterable. *)
Definition iter (v : value) : result (list value) :=
  match v with
  | VStr s => Ok (chars s)
  | VList l | VTuple l => Ok l
  | _ => Err (TypeError ("'" ++ type_name v ++ "' object is not iterable")%string)
  end.

(** [len(v)] *)
Definition len (v : value) : result Z :=
  match v with
  | VStr s => Ok (Z.of_nat (String.length s))
  | VList l | VTuple l => Ok (Z.of_nat (List.length l))
  | _ => Err (TypeError ("object of type '" ++ type_name v ++ "' has no len()")%string)
  end.

(** [v[i]] for a literal index [i >= 0]. *)
Definition getitem (v : value) (i : nat) : result value :=
  match v with
  | VStr s =>
      match nth_error (chars s) i with
      | Some c => Ok c
      | None => Err (IndexError "string index out of range")
      end
  | VList l =>
      match nth_error l i with
      | Some x => Ok x
      | None => Err (IndexError "list index out of range")
      end
  | VTuple l =>
      match nth_error l i with
      | Some x => Ok x
      | None => Err (IndexError "tuple index out of range")
      end
  | _ => Err (TypeError ("'" ++ type_name v ++ "' object is not subscriptable")%string)
  end.

(** [all(isinstance(par, (float, int)) for par in v)] *)
Definition all_float_int (v : value) : result bool :=
  bind (iter v) (fun items => Ok (forallb isinstance_float_int items)).

(** [v in l] for a list [l] of string literals: a value equals a string
    only when it is that string. *)
Definition in_strs (v : value) (l : list string) : bool :=
  match v with
  | VStr s => existsb (String.eqb s) l
  | _ => false
  end.

(** [str(z)] for an int. *)
Definition str_int (z : Z) : string := NilZero.string_of_int (Z.to_int z).

(** *** Exact comparison of Python numbers

    Python compares an int with a float by value, without rounding the int.
    [xnum] is the exact value of a number: [m * 2^e], an infinity or NaN. *)
Inductive xnum : Type :=
| XNaN
| XInf (negative : bool)
| XFin (m e : Z).

Definition xnum_of_float (f : float) : xnum :=
  match Prim2SF f with
  | S754_zero _ => XFin 0 0
  | S754_infinity s => XInf s
  | S754_nan => XNaN
  | S754_finite s m e => XFin (if s then Z.neg m else Z.pos m) e
  end.

Definition xnum_of (v : value) : option xnum :=
  match v with
  | VBool b => Some (XFin (if b then 1 else 0) 0)
  | VInt z => Some (XFin z 0)
  | VFloat f => Some (xnum_of_float f)
  | _ => None
  end.

(** [m1 * 2^e1 ?= m2 * 2^e2], on a common exponent. *)
Definition fin_compare (m1 e1 m2 e2 : Z) : comparison :=
  let e := Z.min e1 e2 in
  Z.compare (m1 * 2 ^ (e1 - e)) (m2 * 2 ^ (e2 - e)).

Definition xcompare (a b : xnum) : option comparison :=
  match a, b with
  | XNaN, _ | _, XNaN => None
  | XInf s1, XInf s2 =>
      Some (match s1, s2 with
            | true, false => Lt
            | false, true => Gt
            | _, _ => Eq
            end)
  | XInf s, XFin _ _ => Some (if s then Lt else Gt)
  | XFin _ _, XInf s => Some (if s then Gt else Lt)
  | XFin m1 e1, XFin m2 e2 => Some (fin_compare m1 e1 m2 e2)
  end.

(** [a <= b] and [a == b] on numbers; [false] when an operand is NaN or is
    not a number. *)
Definition num_le (a b : value) : bool :=
  match xnum_of a, xnum_of b with
  | Some x, Some y =>
      match xcompare x y with
      | Some Lt | Some Eq => true
      | _ => false
      end
  | _, _ => false
  end.

Definition num_eq (a b : value) : bool :=
  match xnum_of a, xnum_of b with
  | Some x, Some y =>
      match xcompare x y with
      | Some Eq => true
      | _ => false
      end
  | _, _ => false
  end.

(** [needle in haystack] for strings. *)
Fixpoint is_prefix (p s : string) : bool :=
  match p, s with
  | EmptyString, _ => true
  | String a p', String b s' => Ascii.eqb a b && is_prefix p' s'
  | String _ _, EmptyString => false
  end.

Fixpoint contains (needle s : string) : bool :=
  is_prefix needle s ||
  match s with
  | EmptyString => false
  | String _ s' => contains needle s'
  end.

End Py.

Import Py.

Declare Scope result_scope.
Delimit Scope result_scope with result.
Notation "x <- c ;; k" := (Py.bind c (fun x => k))
  (at level 61, c at next level, right associativity) : result_scope.

(* ===================================================================== *)
(** ** The data model *)
(* ===================================================================== *)

(** The arguments of [generate], as the caller passes them. *)
Module Arg.
Record t : Type := {
  n_gen : value;
  cosmology : value;
  cosmo_pars : value;
  electron_model : value;
  emission_pars : value;
  lum_dist_pars : value;
  name : value;
  pulse : value;
  si_pars : value;
  z_max : value
}.

(** [generate(n_gen)]: every other argument at the default of the
    signature. *)
Definition defaults (n : value) : t := {|
  n_gen := n;
  cosmology := VBool true;
  cosmo_pars := VList [VFloat 69.6; VFloat 0.286; VFloat 0.714];
  electron_model := VStr "ne2001";
  emission_pars := VList [VFloat 10e6; VFloat 10e9];
  lum_dist_pars := VList [VFloat 1e40; VFloat 1e50; VInt 1];
  name := VNone;
  pulse := VList [VFloat 0.1; VInt 5];
  si_pars := VList [VInt 1; VInt 1];
  z_max := VFloat 2.5
|}.

Definition with_n_gen (a : t) (v : value) : t := {|
  n_gen := v; cosmology := cosmology a; cosmo_pars := cosmo_pars a;
  electron_model := electron_model a; emission_pars := emission_pars a;
  lum_dist_pars := lum_dist_pars a; name := name a; pulse := pulse a;
  si_pars := si_pars a; z_max := z_max a
|}.

Definition with_electron_model (a : t) (v : value) : t := {|
  n_gen := n_gen a; cosmology := cosmology a; cosmo_pars := cosmo_pars a;
  electron_model := v; emission_pars := emission_pars a;
  lum_dist_pars := lum_dist_pars a; name := name a; pulse := pulse a;
  si_pars := si_pars a; z_max := z_max a
|}.

Definition with_cosmo_pars (a : t) (v : value) : t := {|
  n_gen := n_gen a; cosmology := cosmology a; cosmo_pars := v;
  electron_model := electron_model a; emission_pars := emission_pars a;
  lum_dist_pars := lum_dist_pars a; name := name a; pulse := pulse a;
  si_pars := si_pars a; z_max := z_max a
|}.

Definition with_lum_dist_pars (a : t) (v : value) : t := {|
  n_gen := n_gen a; cosmology := cosmology a; cosmo_pars := cosmo_pars a;
  electron_model := electron_model a; emission_pars := emission_pars a;
  lum_dist_pars := v; name := name a; pulse := pulse a;
  si_pars := si_pars a; z_max := z_max a
|}.

Definition with_name (a : t) (v : value) : t := {|
  n_gen := n_gen a; cosmology := cosmology a; cosmo_pars := cosmo_pars a;
  electron_model := electron_model a; emission_pars := emission_pars a;
  lum_dist_pars := lum_dist_pars a; name := v; pulse := pulse a;
  si_pars := si_pars a; z_max := z_max a
|}.

Definition with_si_pars (a : t) (v : value) : t := {|
  n_gen := n_gen a; cosmology := cosmology a; cosmo_pars := cosmo_pars a;
  electron_model := electron_model a; emission_pars := emission_pars a;
  lum_dist_pars := lum_dist_pars a; name := name a; pulse := pulse a;
  si_pars := v; z_max := z_max a
|}.
End Arg.

(** The attributes [generate] gives a source. The class [Source] (module
    [source]) is not among the sources of the repository: a source is
    modelled by the attributes that [generate] assigns, all of them before
    the source is appended. *)
Module Source.
Record t : Type := {
  gb : float;
  gl : float;
  dist : num;
  z : float;
  gx : float;
  gy : float;
  gz : float;
  dm_mw : float;
  dm_igm : float;
  dm_host : float;
  dm : float;
  w_int : float;
  lum_bol : float;
  si : float
}.
End Source.

(** The attributes of a population. The checks of [generate] fix the types
    of [name], [n_gen] and [cosmology]; the other configured attributes hold
    the argument (or the item of it) they were given. *)
Module Population.
Record t : Type := {
  name : string;
  n_gen : Z;
  electron_model : value;
  cosmology : bool;
  H_0 : value;
  W_m : value;
  W_v : value;
  z_max : value;
  v_max : float;
  lum_min : value;
  lum_max : value;
  lum_pow : value;
  w_min : value;
  w_max : value;
  f_min : value;
  f_max : value;
  si_mean : value;
  si_sigma : value;
  n_srcs : Z;
  sources : list Source.t
}.

(** Modelled from the spec: the class [Population] (module [population]) is
    not among the sources. A population "accumulates generated sources": its
    run state is the count [n_srcs] and the ordered sequence [sources], and a
    population that was just created has generated nothing yet. *)
Definition new_n_srcs : Z := 0.
Definition new_sources : list Source.t := [].

(** The population [pop] with another run state. *)
Definition with_run (pop : t) (n : Z) (srcs : list Source.t) : t := {|
  name := name pop; n_gen := n_gen pop;
  electron_model := electron_model pop; cosmology := cosmology pop;
  H_0 := H_0 pop; W_m := W_m pop; W_v := W_v pop;
  z_max := z_max pop; v_max := v_max pop;
  lum_min := lum_min pop; lum_max := lum_max pop; lum_pow := lum_pow pop;
  w_min := w_min pop; w_max := w_max pop;
  f_min := f_min pop; f_max := f_max pop;
  si_mean := si_mean pop; si_sigma := si_sigma pop;
  n_srcs := n;
  sources := srcs
|}.

(** [pop.sources.append(src)] followed by [pop.n_srcs += 1]. *)
Definition append (pop : t) (src : Source.t) : t :=
  with_run pop (n_srcs pop + 1) (sources pop ++ [src]).

(** The population [pop] with other spectral index parameters. *)
Definition with_si (pop : t) (mean sigma : value) : t := {|
  name := name pop; n_gen := n_gen pop;
  electron_model := electron_model pop; cosmology := cosmology pop;
  H_0 := H_0 pop; W_m := W_m pop; W_v := W_v pop;
  z_max := z_max pop; v_max := v_max pop;
  lum_min := lum_min pop; lum_max := lum_max pop; lum_pow := lum_pow pop;
  w_min := w_min pop; w_max := w_max pop;
  f_min := f_min pop; f_max := f_max pop;
  si_mean := mean; si_sigma := sigma;
  n_srcs := n_srcs pop;
  sources := sources pop
|}.
End Population.

(* ===================================================================== *)
(** ** The imported modules *)
(* ===================================================================== *)

(** What [generate] imports. [ambient] is the state of the interpreter that
    the imported functions may read and change (the generator behind
    [random.random()] is part of it); a function of [galacticops] or
    [distributions] takes the ambient state and returns its result, or the
    exception it raises, with the new ambient state. [table] is the type of
    the two sequences [go.dist_lookup] returns. *)
Record Runtime : Type := {
  ambient : Type;
  table : Type;
  builtin_str : value -> string;
  random_random : ambient -> float * ambient;
  math_asin : float -> result float;
  math_degrees : float -> float;
  float_pow : float -> float -> result num;
  go_z_to_v : value -> ambient -> result float * ambient;
  go_dist_lookup :
    bool -> value -> value -> value -> value ->
    ambient -> result (table * table) * ambient;
  go_interpolate_z :
    num -> table -> table -> value -> ambient -> result float * ambient;
  go_lb_to_xyz :
    float -> float -> num -> ambient -> result (float * float * float) * ambient;
  go_ne2001_dist_to_dm :
    num -> float -> float -> ambient -> result float * ambient;
  go_ioka_dm_igm : float -> ambient -> result float * ambient;
  go_redshift_pulse :
    float -> value -> value -> ambient -> result float * ambient;
  dis_powerlaw :
    value -> value -> value -> ambient -> result float * ambient
}.

(** [math.pi] *)
Definition math_pi : float := 0x1.921fb54442d18p+1%float.

(** The calls [generate] makes, as the log of a run records them. *)
Inductive call : Type :=
| CallPopulation
| CallZToV
| CallDistLookup
| CallSource
| CallRandom
| CallInterpolateZ
| CallLbToXyz
| CallNe2001
| CallIokaDmIgm
| CallRedshiftPulse
| CallPowerlaw.

(* ===================================================================== *)
(** ** [generate] *)
(* ===================================================================== *)

Section Generate.

Context (R : Runtime).

(** *** Runs: state passing with exceptions *)

(** The world a run goes through: the ambient state, and the log of the
    calls made so far, oldest first. *)
Record world : Type := World {
  amb : ambient R;
  log : list call
}.

(** A computation returns a value or raises, and leaves a world. *)
Definition M (A : Type) : Type := world -> result A * world.

Definition ret {A} (a : A) : M A := fun w => (Ok a, w).

Definition bindM {A B} (c : M A) (k : A -> M B) : M B :=
  fun w =>
    match c w with
    | (Ok a, w') => k a w'
    | (Err e, w') => (Err e, w')
    end.

(** A step that touches nothing but may raise. *)
Definition lift {A} (r : result A) : M A := fun w => (r, w).

(** A logged call of an imported function. *)
Definition ext {A} (c : call) (f : ambient R -> result A * ambient R) : M A :=
  fun w =>
    let (r, a') := f (amb w) in
    (r, {| amb := a'; log := log w ++ [c] |}).

(** A logged constructor call. *)
Definition construct (c : call) : M unit :=
  fun w => (Ok tt, {| amb := amb w; log := log w ++ [c] |}).

(** [random.random()] *)
Definition random : M float :=
  ext CallRandom (fun a => let (u, a') := random_random R a in (Ok u, a')).

Declare Scope run_scope.
Delimit Scope run_scope with run.
Notation "x <- c ;; k" := (bindM c (fun x => k))
  (at level 61, c at next level, right associativity) : run_scope.

(** *** Checking the input (lines 56-124) *)

Definition raise_if (c : bool) (m : string) : result unit :=
  if c then Err (ValueError m) else Ok tt.

(** The two checks every list of parameters goes through: all of its items
    are floats or integers, and there are [n] of them. *)
Definition check_pars (pars : value) (n : Z) (m_items m_len : string)
  : result unit :=
  (ok <- all_float_int pars ;;
   _ <- raise_if (negb ok) m_items ;;
   k <- len pars ;;
   raise_if (negb (k =? n)) m_len)%result.

(** [str(v)], as [format] inserts it. *)
Definition format_value (v : value) : string :=
  match v with
  | VStr s => s
  | VNone => "None"
  | VBool true => "True"
  | VBool false => "False"
  | VInt z => str_int z
  | _ => builtin_str R v
  end.

(** What the checks establish about the arguments the later code relies on:
    [n_gen] is an int, [cosmology] a bool and [name] (after the default) a
    string. *)
Record Checked : Type := {
  ck_n_gen : Z;
  ck_cosmology : bool;
  ck_name : string
}.

Definition m_n_gen_int : string :=
  "Please ensure the number of generated sources is an integer".
Definition m_n_gen_pos : string :=
  "Please ensure the number of generated sources is > 0".
Definition m_cosmology : string :=
  "Please ensure cosmology is a boolean".
Definition m_electron_model : string :=
  "Unsupported electron model: ".
Definition m_name : string :=
  "Please provide a string as input for the name of the population".
Definition m_z_max : string :=
  "Please ensure the maximum redshift is given as a float or integer".

Definition check_input (a : Arg.t) : result Checked :=
  match Arg.n_gen a with
  | VInt n =>
    (_ <- raise_if (n <? 1) m_n_gen_pos ;;
     match Arg.cosmology a with
     | VBool c =>
       _ <- check_pars (Arg.cosmo_pars a) 3
              "Please ensure all cosmology parameters are floats or integeters"
              "Please ensure there are three cosmology parameters" ;;
       _ <- raise_if (negb (in_strs (Arg.electron_model a) ["ne2001"]))
              (m_electron_model ++ format_value (Arg.electron_model a))%string ;;
       _ <- check_pars (Arg.emission_pars a) 2
              "Please ensure all emission parameters are floats or integeters"
              "Please ensure there are two emission parameters" ;;
       _ <- check_pars (Arg.lum_dist_pars a) 3
              "Please ensure all luminosity distribution parameters are floats or integeters"
              "Please ensure there are three luminosity distribution parameters" ;;
       _ <- check_pars (Arg.pulse a) 2
              "Please ensure all pulse parameters are floats or integeters"
              "Please ensure there are two pulse parameters" ;;
       match (if truthy (Arg.name a) then Arg.name a else VStr "Initial") with
       | VStr name =>
         _ <- check_pars (Arg.si_pars a) 2
                "Please ensure all spectral index parameters are floats or integers"
                "Please ensure there are two spectral index parameters" ;;
         _ <- raise_if (negb (isinstance_float_int (Arg.z_max a))) m_z_max ;;
         Ok {| ck_n_gen := n; ck_cosmology := c; ck_name := name |}
       | _ => Err (ValueError m_name)
       end
     | _ => Err (ValueError m_cosmology)
     end)%result
  | _ => Err (ValueError m_n_gen_int)
  end.

(** *** One source (lines 157-192) *)

Definition sample_source (pop : Population.t) (ds zs : table R) : M Source.t :=
  (_ <- construct CallSource ;;
   (* Add random directional coordinates *)
   u_gb <- random ;;
   a <- lift (math_asin R u_gb) ;;
   let gb := math_degrees R a in
   u_sign <- random ;;
   let gb := if (u_sign <? 0.5)%float then (gb * -1)%float else gb in
   u_gl <- random ;;
   let gl := (u_gl * 360.0)%float in
   (* Calculate comoving distance [Gpc] *)
   u_dist <- random ;;
   dist <- lift (float_pow R
                   (Population.v_max pop * u_dist * (3 / (4 * math_pi)))%float
                   (1 / 3)%float) ;;
   (* Calculate redshift *)
   z <- ext CallInterpolateZ
          (go_interpolate_z R dist ds zs (Population.H_0 pop)) ;;
   (* Convert into galactic coordinates *)
   xyz <- ext CallLbToXyz (go_lb_to_xyz R gl gb dist) ;;
   (* Dispersion measure of the Milky Way *)
   dm_mw <- ext CallNe2001 (go_ne2001_dist_to_dm R dist gl gb) ;;
   (* Dispersion measure of the intergalactic medium *)
   dm_igm <- ext CallIokaDmIgm (go_ioka_dm_igm R z) ;;
   (* Dispersion measure of the host *)
   let dm_host := 100%float in
   (* Total dispersion measure *)
   let dm := (dm_mw + dm_igm + dm_host)%float in
   (* Give an random intrinsic pulse width [ms] *)
   w_int <- ext CallRedshiftPulse
              (go_redshift_pulse R z (Population.w_min pop) (Population.w_max pop)) ;;
   (* Add bolometric luminosity [erg/s] *)
   lum_bol <- ext CallPowerlaw
                (dis_powerlaw R (Population.lum_min pop) (Population.lum_max pop)
                   (Population.lum_pow pop)) ;;
   ret {| Source.gb := gb; Source.gl := gl; Source.dist := dist; Source.z := z;
          Source.gx := fst (fst xyz); Source.gy := snd (fst xyz);
          Source.gz := snd xyz;
          Source.dm_mw := dm_mw; Source.dm_igm := dm_igm;
          Source.dm_host := dm_host; Source.dm := dm;
          Source.w_int := w_int; Source.lum_bol := lum_bol;
          (* Add spectral index *)
          Source.si := (-1.4)%float |})%run.

(** *** The loop (lines 155-196) *)

(** [pop.n_srcs < pop.n_gen] *)
Definition loop_cond (pop : Population.t) : bool :=
  Population.n_srcs pop <? Population.n_gen pop.

(** One iteration: a new source, appended to the population. *)
Definition loop_body (ds zs : table R) (pop : Population.t) : M Population.t :=
  (src <- sample_source pop ds zs ;;
   ret (Population.append pop src))%run.

(** What an iteration leaves to do. *)
Definition remaining (pop : Population.t) : nat :=
  Z.to_nat (Population.n_gen pop - Population.n_srcs pop).

(** [while pop.n_srcs < pop.n_gen: ...] *)
Equations? sampling_loop (ds zs : table R) (pop : Population.t) (w : world)
  : result Population.t * world by wf (remaining pop) lt :=
  sampling_loop ds zs pop w with inspect (loop_cond pop) => {
    | exist _ false _ => (Ok pop, w)
    | exist _ true Hc with inspect (loop_body ds zs pop w) => {
      | exist _ (Ok pop', w') Hb => sampling_loop ds zs pop' w'
      | exist _ (Err e, w') _ => (Err e, w') } }.
Proof.
  (* the iteration appended one source: one fewer remains *)
  unfold loop_body, bindM, ret in Hb.
  destruct (sample_source pop ds zs w) as [[src | e] w1]; inversion Hb.
  unfold loop_cond in Hc. apply Z.ltb_lt in Hc.
  unfold remaining. simpl. lia.
Qed.

(** *** The whole function *)

(** Lines 126-153: the population as configured, and the lookup table. *)
Definition set_up (a : Arg.t) (ck : Checked)
  : M (Population.t * (table R * table R)) :=
  ((* Set up population *)
   _ <- construct CallPopulation ;;
   H_0 <- lift (getitem (Arg.cosmo_pars a) 0) ;;
   W_m <- lift (getitem (Arg.cosmo_pars a) 1) ;;
   W_v <- lift (getitem (Arg.cosmo_pars a) 2) ;;
   v_max <- ext CallZToV (go_z_to_v R (Arg.z_max a)) ;;
   lum_min <- lift (getitem (Arg.lum_dist_pars a) 0) ;;
   lum_max <- lift (getitem (Arg.lum_dist_pars a) 1) ;;
   lum_pow <- lift (getitem (Arg.lum_dist_pars a) 2) ;;
   w_min <- lift (getitem (Arg.pulse a) 0) ;;
   w_max <- lift (getitem (Arg.pulse a) 1) ;;
   f_min <- lift (getitem (Arg.emission_pars a) 0) ;;
   f_max <- lift (getitem (Arg.emission_pars a) 1) ;;
   si_mean <- lift (getitem (Arg.si_pars a) 0) ;;
   si_sigma <- lift (getitem (Arg.si_pars a) 1) ;;
   let pop := {|
     Population.name := ck_name ck;
     Population.n_gen := ck_n_gen ck;
     Population.electron_model := Arg.electron_model a;
     Population.cosmology := ck_cosmology ck;
     Population.H_0 := H_0;
     Population.W_m := W_m;
     Population.W_v := W_v;
     Population.z_max := Arg.z_max a;
     Population.v_max := v_max;
     Population.lum_min := lum_min;
     Population.lum_max := lum_max;
     Population.lum_pow := lum_pow;
     Population.w_min := w_min;
     Population.w_max := w_max;
     Population.f_min := f_min;
     Population.f_max := f_max;
     Population.si_mean := si_mean;
     Population.si_sigma := si_sigma;
     Population.n_srcs := Population.new_n_srcs;
     Population.sources := Population.new_sources
   |} in
   (* Create a comoving distance to redshift lookup table *)
   tabs <- ext CallDistLookup
             (go_dist_lookup R (Population.cosmology pop) (Population.H_0 pop)
                (Population.W_m pop) (Population.W_v pop) (Population.z_max pop)) ;;
   ret (pop, tabs))%run.

Definition generate (a : Arg.t) : M Population.t :=
  (ck <- lift (check_input a) ;;
   st <- set_up a ck ;;
   sampling_loop (fst (snd st)) (snd (snd st)) (fst st))%run.

End Generate.

Arguments world R : clear implicits.
Arguments World {R} amb log.
Arguments amb {R} w.
Arguments log {R} w.

(* ===================================================================== *)
(** ** A runtime to run [generate] on examples *)
(* ===================================================================== *)

(** Stand-ins for the imported functions, simple enough to evaluate: the
    ambient state counts the draws of [random.random()], which alternate
    between 0.25 and 0.75. *)
Module Demo.

Definition draw (n : nat) : float * nat :=
  ((if Nat.even n then 0.25 else 0.75)%float, S n).

Definition asin (x : float) : result float :=
  if ((-1 <=? x) && (x <=? 1))%float
  then Ok (if (x <? 0.5) then 0.25 else 0.85)%float
  else Err (ValueError "math domain error").

Definition degrees (x : float) : float :=
  if (x <? 0.5)%float then 14.5%float else 48.6%float.

Definition pow (x y : float) : result num :=
  if (x <? 0)%float then Ok (NComplex x y) else Ok (NFloat (sqrt x)).

Definition const {A} (x : A) (n : nat) : result A * nat := (Ok x, n).

(** A [dis.powerlaw] that never raises. *)
Definition powerlaw_const (lo hi k : value) : nat -> result float * nat :=
  const 1e45%float.

(** A [dis.powerlaw] that returns the lower bound when the bounds are floats
    in order, and raises otherwise. *)
Definition powerlaw_lower (lo hi k : value) (n : nat) : result float * nat :=
  match lo with
  | VFloat f =>
      if num_le lo hi
      then (Ok f, n)
      else (Err (ValueError "powerlaw: empty range"), n)
  | _ => (Err (TypeError "powerlaw: float expected"), n)
  end.

Definition runtime_with
  (powerlaw : value -> value -> value -> nat -> result float * nat)
  : Runtime := {|
  ambient := nat;
  table := list float;
  builtin_str := fun _ => "<object>";
  random_random := draw;
  math_asin := asin;
  math_degrees := degrees;
  float_pow := pow;
  go_z_to_v := fun z => const 1000%float;
  go_dist_lookup := fun c h m v z => const ([0; 1]%float, [0; 2.5]%float);
  go_interpolate_z := fun d ds zs h => const 1.5%float;
  go_lb_to_xyz := fun gl gb d => const (1, 2, 3)%float;
  go_ne2001_dist_to_dm := fun d gl gb => const 30%float;
  go_ioka_dm_igm := fun z => const 1200%float;
  go_redshift_pulse := fun z lo hi => const 2.5%float;
  dis_powerlaw := powerlaw
|}.

Definition runtime : Runtime := runtime_with powerlaw_const.

Definition start : world runtime := World (R := runtime) 0%nat [].

End Demo.

(* ===================================================================== *)
(** ** The vocabulary of the properties *)
(* ===================================================================== *)

Section Vocabulary.

Context (R : Runtime).

(** [iterates ds zs pop w pop' w']: the loop, at its head with the
    population [pop] in the world [w], is at its head again with [pop'] in
    [w'] after some (maybe no) iterations. *)
Inductive iterates (ds zs : table R)
  : Population.t -> world R -> Population.t -> world R -> Prop :=
| iterates_here pop w : iterates ds zs pop w pop w
| iterates_next pop w pop1 w1 pop' w' :
    loop_cond pop = true ->
    loop_body R ds zs pop w = (Ok pop1, w1) ->
    iterates ds zs pop1 w1 pop' w' ->
    iterates ds zs pop w pop' w'.

(** [sampled pop ds zs w srcs w']: the sources [srcs] were sampled one
    after the other, the first from the world [w], each from the world the
    one before it left, the last leaving [w']. *)
Inductive sampled (pop : Population.t) (ds zs : table R)
  : world R -> list Source.t -> world R -> Prop :=
| sampled_none w : sampled pop ds zs w [] w
| sampled_one_more w src w1 srcs w' :
    sample_source R pop ds zs w = (Ok src, w1) ->
    sampled pop ds zs w1 srcs w' ->
    sampled pop ds zs w (src :: srcs) w'.

(** [src] is a source of a sampling run of the population [pop]. *)
Definition sampled_from (pop : Population.t) (ds zs : table R)
  (src : Source.t) : Prop :=
  exists w w', sample_source R pop ds zs w = (Ok src, w').

(** [random.random()] returns a float of [[0, 1)]. *)
Definition unit_draws : Prop :=
  forall a, (0 <=? fst (random_random R a))%float = true /\
            (fst (random_random R a) <? 1)%float = true.

(** No imported function raises: [math.asin] on [[0, 1)], [**] with the
    exponent [1 / 3], the functions of [galacticops] and [distributions] on
    every argument. *)
Definition never_raises : Prop :=
  (forall u, (0 <=? u)%float = true -> (u <? 1)%float = true ->
             is_ok (math_asin R u) = true) /\
  (forall x, is_ok (float_pow R x (1 / 3)%float) = true) /\
  (forall z a, is_ok (fst (go_z_to_v R z a)) = true) /\
  (forall c h m v z a, is_ok (fst (go_dist_lookup R c h m v z a)) = true) /\
  (forall d ds zs h a, is_ok (fst (go_interpolate_z R d ds zs h a)) = true) /\
  (forall gl gb d a, is_ok (fst (go_lb_to_xyz R gl gb d a)) = true) /\
  (forall d gl gb a, is_ok (fst (go_ne2001_dist_to_dm R d gl gb a)) = true) /\
  (forall z a, is_ok (fst (go_ioka_dm_igm R z a)) = true) /\
  (forall z lo hi a, is_ok (fst (go_redshift_pulse R z lo hi a)) = true) /\
  (forall lo hi k a, is_ok (fst (dis_powerlaw R lo hi k a)) = true).

(** The ambient state after [k] calls of [random.random()], and the value
    the next call returns. *)
Fixpoint after_draws (k : nat) (a : ambient R) : ambient R :=
  match k with
  | O => a
  | S k' => after_draws k' (snd (random_random R a))
  end.

Definition draw (k : nat) (a : ambient R) : float :=
  fst (random_random R (after_draws k a)).

(** The closed forms of the directional coordinates and of the distance of
    [src], on the four successive draws from the ambient state [a]. *)
Definition geometry (v_max : float) (a : ambient R) (src : Source.t) : Prop :=
  (exists x,
      math_asin R (draw 0 a) = Ok x /\
      Source.gb src =
        if (draw 1 a <? 0.5)%float
        then (math_degrees R x * -1)%float
        else math_degrees R x) /\
  Source.gl src = (draw 2 a * 360)%float /\
  float_pow R (v_max * draw 3 a * (3 / (4 * math_pi)))%float (1 / 3)%float
    = Ok (Source.dist src).

(** The calls one iteration of the loop logs. *)
Definition calls_of_a_source : list call :=
  [CallSource; CallRandom; CallRandom; CallRandom; CallRandom;
   CallInterpolateZ; CallLbToXyz; CallNe2001; CallIokaDmIgm;
   CallRedshiftPulse; CallPowerlaw].

(** [drawn_in_turn v_max w srcs w']: each source of [srcs] has the closed
    forms on the four draws made from the ambient state its iteration
    started in, its iteration logged one run of [calls_of_a_source] (four
    draws, none repeated), and started in the world the iteration before it
    left. *)
Inductive drawn_in_turn (v_max : float)
  : world R -> list Source.t -> world R -> Prop :=
| drawn_none w : drawn_in_turn v_max w [] w
| drawn_one_more w src w1 srcs w' :
    geometry v_max (amb w) src ->
    log w1 = (log w ++ calls_of_a_source)%list ->
    drawn_in_turn v_max w1 srcs w' ->
    drawn_in_turn v_max w (src :: srcs) w'.

(** The contract of [math.asin] followed by [math.degrees]: an argument of
    [[0, 1)] gives an angle of [[0, 90]] degrees. *)
Definition asin_in_degrees : Prop :=
  forall u x,
    (0 <=? u)%float = true -> (u <? 1)%float = true ->
    math_asin R u = Ok x ->
    (0 <=? math_degrees R x)%float = true /\
    (math_degrees R x <=? 90)%float = true.

(** The contract of [dis.powerlaw]: the value it returns is within the
    bounds it was given. *)
Definition powerlaw_within_bounds : Prop :=
  forall lo hi k a v a',
    dis_powerlaw R lo hi k a = (Ok v, a') ->
    num_le lo (VFloat v) = true /\ num_le (VFloat v) hi = true.

(** *** The rules of the checks, one per argument *)

(** A list or tuple of [k] floats or integers. *)
Definition is_numbers (k : Z) (v : value) : bool :=
  match v with
  | VList l | VTuple l =>
      forallb isinstance_float_int l && (Z.of_nat (List.length l) =? k)
  | _ => false
  end.

Definition rule_n_gen (v : value) : bool :=
  match v with VInt n => 1 <=? n | _ => false end.

(** A name is defaulted when it is falsy and has to be a string otherwise. *)
Definition rule_name (v : value) : bool :=
  negb (truthy v) || type_is_str v.

Definition args_valid (a : Arg.t) : bool :=
  rule_n_gen (Arg.n_gen a) &&
  type_is_bool (Arg.cosmology a) &&
  is_numbers 3 (Arg.cosmo_pars a) &&
  in_strs (Arg.electron_model a) ["ne2001"] &&
  is_numbers 2 (Arg.emission_pars a) &&
  is_numbers 3 (Arg.lum_dist_pars a) &&
  is_numbers 2 (Arg.pulse a) &&
  rule_name (Arg.name a) &&
  is_numbers 2 (Arg.si_pars a) &&
  isinstance_float_int (Arg.z_max a).

(** The name the population gets: the argument when it is a non-empty
    string, ['Initial'] when it is falsy. *)
Definition name_of (v : value) : string :=
  match v with
  | VStr (String c s) => String c s
  | _ => "Initial"
  end.

Definition int_of (v : value) : Z :=
  match v with VInt n => n | _ => 0 end.

Definition bool_of (v : value) : bool :=
  match v with VBool b => b | _ => false end.

(** The result of a run, with [f] applied to the value returned. *)
Definition map_ok {A B} (f : A -> B) (r : result A * world R)
  : result B * world R :=
  match r with
  | (Ok a, w) => (Ok (f a), w)
  | (Err e, w) => (Err e, w)
  end.

(** *** The checks as a table *)

(** The parameters of [generate], in the order their checks are written. *)
Inductive param : Type :=
| P_n_gen
| P_cosmology
| P_cosmo_pars
| P_electron_model
| P_emission_pars
| P_lum_dist_pars
| P_pulse
| P_name
| P_si_pars
| P_z_max.

Definition check_order : list param :=
  [P_n_gen; P_cosmology; P_cosmo_pars; P_electron_model; P_emission_pars;
   P_lum_dist_pars; P_pulse; P_name; P_si_pars; P_z_max].

(** The rule the check of a parameter enforces. *)
Definition rule (p : param) (a : Arg.t) : bool :=
  match p with
  | P_n_gen => rule_n_gen (Arg.n_gen a)
  | P_cosmology => type_is_bool (Arg.cosmology a)
  | P_cosmo_pars => is_numbers 3 (Arg.cosmo_pars a)
  | P_electron_model => in_strs (Arg.electron_model a) ["ne2001"]
  | P_emission_pars => is_numbers 2 (Arg.emission_pars a)
  | P_lum_dist_pars => is_numbers 3 (Arg.lum_dist_pars a)
  | P_pulse => is_numbers 2 (Arg.pulse a)
  | P_name => rule_name (Arg.name a)
  | P_si_pars => is_numbers 2 (Arg.si_pars a)
  | P_z_max => isinstance_float_int (Arg.z_max a)
  end.

(** The first parameter, in the order of the checks, that breaks its rule. *)
Definition first_violated (a : Arg.t) : option param :=
  find (fun p => negb (rule p a)) check_order.

(** What the two checks of a list of parameters raise for a value that is
    not the required number of floats or integers: the TypeError of the loop
    over a value that is not iterable, the message about the items when one
    of them is not a number, the message about their number otherwise. *)
Definition pars_error (pars : value) (m_items m_len : string) : exn :=
  match pars with
  | VList l | VTuple l =>
      if forallb isinstance_float_int l
      then ValueError m_len
      else ValueError m_items
  | VStr EmptyString => ValueError m_len
  | VStr (String _ _) => ValueError m_items
  | _ => TypeError ("'" ++ type_name pars ++ "' object is not iterable")%string
  end.

(** The exception [generate] raises when [p] is the first parameter that
    breaks its rule. *)
Definition error_of (p : param) (a : Arg.t) : exn :=
  match p with
  | P_n_gen =>
      if type_is_int (Arg.n_gen a)
      then ValueError "Please ensure the number of generated sources is > 0"
      else ValueError "Please ensure the number of generated sources is an integer"
  | P_cosmology => ValueError "Please ensure cosmology is a boolean"
  | P_cosmo_pars =>
      pars_error (Arg.cosmo_pars a)
        "Please ensure all cosmology parameters are floats or integeters"
        "Please ensure there are three cosmology parameters"
  | P_electron_model =>
      ValueError ("Unsupported electron model: " ++
                  format_value R (Arg.electron_model a))%string
  | P_emission_pars =>
      pars_error (Arg.emission_pars a)
        "Please ensure all emission parameters are floats or integeters"
        "Please ensure there are two emission parameters"
  | P_lum_dist_pars =>
      pars_error (Arg.lum_dist_pars a)
        "Please ensure all luminosity distribution parameters are floats or integeters"
        "Please ensure there are three luminosity distribution parameters"
  | P_pulse =>
      pars_error (Arg.pulse a)
        "Please ensure all pulse parameters are floats or integeters"
        "Please ensure there are two pulse parameters"
  | P_name =>
      ValueError "Please provide a string as input for the name of the population"
  | P_si_pars =>
      pars_error (Arg.si_pars a)
        "Please ensure all spectral index parameters are floats or integers"
        "Please ensure there are two spectral index parameters"
  | P_z_max =>
      ValueError "Please ensure the maximum redshift is given as a float or integer"
  end.

(** *** Other arguments, other attributes *)

Definition with_emission_pars (a : Arg.t) (v : value) : Arg.t := {|
  Arg.n_gen := Arg.n_gen a; Arg.cosmology := Arg.cosmology a;
  Arg.cosmo_pars := Arg.cosmo_pars a;
  Arg.electron_model := Arg.electron_model a; Arg.emission_pars := v;
  Arg.lum_dist_pars := Arg.lum_dist_pars a; Arg.name := Arg.name a;
  Arg.pulse := Arg.pulse a; Arg.si_pars := Arg.si_pars a;
  Arg.z_max := Arg.z_max a
|}.

(** A tuple read as the list of its items. *)
Definition as_list (v : value) : value :=
  match v with VTuple l => VList l | _ => v end.

(** The arguments with every tuple of parameters replaced by a list. *)
Definition with_lists (a : Arg.t) : Arg.t := {|
  Arg.n_gen := Arg.n_gen a; Arg.cosmology := Arg.cosmology a;
  Arg.cosmo_pars := as_list (Arg.cosmo_pars a);
  Arg.electron_model := Arg.electron_model a;
  Arg.emission_pars := as_list (Arg.emission_pars a);
  Arg.lum_dist_pars := as_list (Arg.lum_dist_pars a); Arg.name := Arg.name a;
  Arg.pulse := as_list (Arg.pulse a); Arg.si_pars := as_list (Arg.si_pars a);
  Arg.z_max := Arg.z_max a
|}.

(** The population [pop] with other emission frequencies. *)
Definition with_frequencies (pop : Population.t) (lo hi : value)
  : Population.t := {|
  Population.name := Population.name pop;
  Population.n_gen := Population.n_gen pop;
  Population.electron_model := Population.electron_model pop;
  Population.cosmology := Population.cosmology pop;
  Population.H_0 := Population.H_0 pop;
  Population.W_m := Population.W_m pop;
  Population.W_v := Population.W_v pop;
  Population.z_max := Population.z_max pop;
  Population.v_max := Population.v_max pop;
  Population.lum_min := Population.lum_min pop;
  Population.lum_max := Population.lum_max pop;
  Population.lum_pow := Population.lum_pow pop;
  Population.w_min := Population.w_min pop;
  Population.w_max := Population.w_max pop;
  Population.f_min := lo;
  Population.f_max := hi;
  Population.si_mean := Population.si_mean pop;
  Population.si_sigma := Population.si_sigma pop;
  Population.n_srcs := Population.n_srcs pop;
  Population.sources := Population.sources pop
|}.

(** The population [pop] asked for [n] sources. *)
Definition with_target (pop : Population.t) (n : Z) : Population.t := {|
  Population.name := Population.name pop;
  Population.n_gen := n;
  Population.electron_model := Population.electron_model pop;
  Population.cosmology := Population.cosmology pop;
  Population.H_0 := Population.H_0 pop;
  Population.W_m := Population.W_m pop;
  Population.W_v := Population.W_v pop;
  Population.z_max := Population.z_max pop;
  Population.v_max := Population.v_max pop;
  Population.lum_min := Population.lum_min pop;
  Population.lum_max := Population.lum_max pop;
  Population.lum_pow := Population.lum_pow pop;
  Population.w_min := Population.w_min pop;
  Population.w_max := Population.w_max pop;
  Population.f_min := Population.f_min pop;
  Population.f_max := Population.f_max pop;
  Population.si_mean := Population.si_mean pop;
  Population.si_sigma := Population.si_sigma pop;
  Population.n_srcs := Population.n_srcs pop;
  Population.sources := Population.sources pop
|}.

(** *** What a source is derived from *)

(** The attributes of [src] that the imported functions give: each is what
    its function returned for the coordinates, the distance and the redshift
    of [src] itself and for the attributes of the population, the calls
    following one another from the ambient state [a] to [a']. *)
Definition derived (pop : Population.t) (ds zs : table R) (a : ambient R)
  (src : Source.t) (a' : ambient R) : Prop :=
  exists a1 a2 a3 a4 a5,
    go_interpolate_z R (Source.dist src) ds zs (Population.H_0 pop) a
      = (Ok (Source.z src), a1) /\
    go_lb_to_xyz R (Source.gl src) (Source.gb src) (Source.dist src) a1
      = (Ok (Source.gx src, Source.gy src, Source.gz src), a2) /\
    go_ne2001_dist_to_dm R (Source.dist src) (Source.gl src) (Source.gb src) a2
      = (Ok (Source.dm_mw src), a3) /\
    go_ioka_dm_igm R (Source.z src) a3 = (Ok (Source.dm_igm src), a4) /\
    go_redshift_pulse R (Source.z src)
      (Population.w_min pop) (Population.w_max pop) a4
      = (Ok (Source.w_int src), a5) /\
    dis_powerlaw R (Population.lum_min pop) (Population.lum_max pop)
      (Population.lum_pow pop) a5
      = (Ok (Source.lum_bol src), a').

(** [derived_in_turn pop ds zs a srcs a']: from the ambient state [a], each
    source of [srcs] took its four draws and then had its attributes derived,
    starting in the ambient state the source before it left; the last one
    left [a']. *)
Inductive derived_in_turn (pop : Population.t) (ds zs : table R)
  : ambient R -> list Source.t -> ambient R -> Prop :=
| derived_none a : derived_in_turn pop ds zs a [] a
| derived_one_more a src a1 srcs a' :
    derived pop ds zs (after_draws 4 a) src a1 ->
    derived_in_turn pop ds zs a1 srcs a' ->
    derived_in_turn pop ds zs a (src :: srcs) a'.

(** The contract of [**] on floats: a base that is not negative has a real
    power. *)
Definition real_power : Prop :=
  forall x y r,
    (x <? 0)%float = false -> float_pow R x y = Ok r ->
    exists f, r = NFloat f.

(** *** The population the set-up configures *)

(** [v[i]], where the checks have made sure that there is such an item. *)
Definition item (v : value) (i : nat) : value :=
  match getitem v i with Ok x => x | Err _ => VNone end.

(** The population of lines 127-145, for the arguments [a] that passed the
    checks with [ck] and the volume [v_max] that [go.z_to_v] returned. *)
Definition configured (a : Arg.t) (ck : Checked) (v_max : float)
  : Population.t := {|
  Population.name := ck_name ck;
  Population.n_gen := ck_n_gen ck;
  Population.electron_model := Arg.electron_model a;
  Population.cosmology := ck_cosmology ck;
  Population.H_0 := item (Arg.cosmo_pars a) 0;
  Population.W_m := item (Arg.cosmo_pars a) 1;
  Population.W_v := item (Arg.cosmo_pars a) 2;
  Population.z_max := Arg.z_max a;
  Population.v_max := v_max;
  Population.lum_min := item (Arg.lum_dist_pars a) 0;
  Population.lum_max := item (Arg.lum_dist_pars a) 1;
  Population.lum_pow := item (Arg.lum_dist_pars a) 2;
  Population.w_min := item (Arg.pulse a) 0;
  Population.w_max := item (Arg.pulse a) 1;
  Population.f_min := item (Arg.emission_pars a) 0;
  Population.f_max := item (Arg.emission_pars a) 1;
  Population.si_mean := item (Arg.si_pars a) 0;
  Population.si_sigma := item (Arg.si_pars a) 1;
  Population.n_srcs := Population.new_n_srcs;
  Population.sources := Population.new_sources
|}.

(** What the checks return for valid arguments. *)
Definition checked (a : Arg.t) : Checked := {|
  ck_n_gen := int_of (Arg.n_gen a);
  ck_cosmology := bool_of (Arg.cosmology a);
  ck_name := name_of (Arg.name a)
|}.

(** What is left of [generate] once the checks have passed and no subscript
    can raise: the two calls of the set-up, then the loop. *)
Definition run_after_checks (a : Arg.t) (w : world R)
  : result Population.t * world R :=
  match go_z_to_v R (Arg.z_max a) (amb w) with
  | (Err e, a1) => (Err e, World a1 (log w ++ [CallPopulation; CallZToV]))
  | (Ok v, a1) =>
      match go_dist_lookup R (bool_of (Arg.cosmology a))
              (item (Arg.cosmo_pars a) 0) (item (Arg.cosmo_pars a) 1)
              (item (Arg.cosmo_pars a) 2) (Arg.z_max a) a1 with
      | (Err e, a2) =>
          (Err e,
           World a2 (log w ++ [CallPopulation; CallZToV; CallDistLookup]))
      | (Ok (ds, zs), a2) =>
          sampling_loop R ds zs (configured a (checked a) v)
            (World a2 (log w ++ [CallPopulation; CallZToV; CallDistLookup]))
      end
  end.


End Vocabulary.

(* ===================================================================== *)
(** ** Binary64 arithmetic *)
(* ===================================================================== *)

(** The facts on the floats of Python that the bounds of the coordinates
    rest on, proved from the specification of the primitive floats
    ([FloatAxioms]): multiplying by -1 is exact, and the product of a float
    of [[0, 1)] with 360 rounds to a float below 360. *)
Module Binary64.

(** [shr_1] halves a nonnegative mantissa and remembers the bit it drops. *)
Lemma shr_1_spec m r s :
  0 <= m ->
  shr_1 {| shr_m := m; shr_r := r; shr_s := s |} =
  {| shr_m := m / 2; shr_r := Z.odd m; shr_s := r || s |}.
Proof.
  intros Hm. destruct m as [ | p | p ]; [ reflexivity | | lia ].
  destruct p as [ p | p | ]; simpl.
  - f_equal. rewrite Pos2Z.inj_xI. rewrite Z.mul_comm, Z.div_add_l by lia.
    simpl. lia.
  - f_equal. rewrite Pos2Z.inj_xO. rewrite Z.mul_comm, Z.div_mul by lia.
    reflexivity.
  - reflexivity.
Qed.

Lemma iter_pos_nat {A} (f : A -> A) p x :
  iter_pos f p x = Nat.iter (Pos.to_nat p) f x.
Proof.
  revert x. induction p as [ p IH | p IH | ]; intros x; cbn [iter_pos].
  - rewrite !IH. rewrite Pos2Nat.inj_xI.
    replace (S (2 * Pos.to_nat p)) with (Pos.to_nat p + (Pos.to_nat p + 1))%nat by lia.
    rewrite !Nat.iter_add. simpl. reflexivity.
  - rewrite !IH. rewrite Pos2Nat.inj_xO.
    replace (2 * Pos.to_nat p)%nat with (Pos.to_nat p + Pos.to_nat p)%nat by lia.
    rewrite Nat.iter_add. reflexivity.
  - reflexivity.
Qed.

(** After [k + 1] halvings of [m]: the quotient by [2^(k+1)], and bit [k] of
    [m] as the round bit. *)
Lemma iter_shr_1 k m r s :
  0 <= m ->
  exists s',
    Nat.iter (S k) shr_1 {| shr_m := m; shr_r := r; shr_s := s |} =
    {| shr_m := m / 2 ^ Z.of_nat (S k);
       shr_r := Z.odd (m / 2 ^ Z.of_nat k);
       shr_s := s' |}.
Proof.
  intros Hm. induction k as [ | k [s' IH] ].
  - exists (r || s). unfold Nat.iter. cbn [nat_rect].
    rewrite shr_1_spec by trivial.
    change (2 ^ Z.of_nat 1) with 2. change (2 ^ Z.of_nat 0) with 1.
    now rewrite Z.div_1_r.
  - eexists.
    change (Nat.iter (S (S k)) shr_1 ?x)
      with (shr_1 (Nat.iter (S k) shr_1 x)).
    rewrite IH. rewrite shr_1_spec by (apply Z.div_pos; lia).
    f_equal.
    rewrite Z.div_div by lia. f_equal.
    rewrite (Nat2Z.inj_succ (S k)). rewrite Z.pow_succ_r by lia. lia.
Qed.

Lemma shr_spec m e p :
  0 <= m ->
  exists s',
    shr {| shr_m := m; shr_r := false; shr_s := false |} e (Zpos p) =
    ({| shr_m := m / 2 ^ Zpos p;
        shr_r := Z.odd (m / 2 ^ (Zpos p - 1));
        shr_s := s' |}, e + Zpos p).
Proof.
  intros Hm. unfold shr. rewrite iter_pos_nat.
  destruct (Pos2Nat.is_succ p) as [k Hk]. rewrite Hk.
  destruct (iter_shr_1 k m false false Hm) as [s' Hs]. exists s'.
  rewrite Hs. f_equal. f_equal.
  - f_equal. f_equal. lia.
  - f_equal. f_equal. f_equal. lia.
Qed.

Lemma fexp_eq x : fexp prec emax x = Z.max (x - 53) (-1074).
Proof. reflexivity. Qed.

Lemma digits2_pos_bounds p :
  2 ^ (Zpos (digits2_pos p) - 1) <= Zpos p < 2 ^ Zpos (digits2_pos p).
Proof.
  induction p as [ p IH | p IH | ]; cbn [digits2_pos].
  - rewrite Pos2Z.inj_succ, (Pos2Z.inj_xI p).
    replace (Z.succ (Zpos (digits2_pos p)) - 1)
      with (Z.succ (Zpos (digits2_pos p) - 1)) by lia.
    rewrite !Z.pow_succ_r by lia. lia.
  - rewrite Pos2Z.inj_succ, (Pos2Z.inj_xO p).
    replace (Z.succ (Zpos (digits2_pos p)) - 1)
      with (Z.succ (Zpos (digits2_pos p) - 1)) by lia.
    rewrite !Z.pow_succ_r by lia. lia.
  - simpl. lia.
Qed.

Lemma digits2_pos_unique p d :
  2 ^ (d - 1) <= Zpos p < 2 ^ d -> Zpos (digits2_pos p) = d.
Proof.
  intros [Hlo Hhi]. pose proof (digits2_pos_bounds p) as [Blo Bhi].
  assert (Hd : 0 < d).
  { destruct (Z.ltb_spec 0 d); trivial.
    destruct (Z.eqb_spec d 0) as [-> | Hne]; [ simpl in Hhi; lia | ].
    rewrite Z.pow_neg_r in Hhi by lia. lia. }
  destruct (Z.lt_trichotomy (Zpos (digits2_pos p)) d) as [Hlt | [Heq | Hgt]];
    trivial; exfalso.
  - assert (2 ^ Zpos (digits2_pos p) <= 2 ^ (d - 1))
      by (apply Z.pow_le_mono_r; lia). lia.
  - assert (2 ^ d <= 2 ^ (Zpos (digits2_pos p) - 1))
      by (apply Z.pow_le_mono_r; lia). lia.
Qed.

(** A canonical mantissa and exponent come back from the rounding of the
    mantissa shifted left by [k] bits with the exponent lowered by [k]. *)
Lemma binary_round_aux_shifted s m e k :
  bounded prec emax m e = true ->
  binary_round_aux prec emax s (Zpos m * 2 ^ Zpos k) (e - Zpos k) loc_Exact
  = S754_finite s m e.
Proof.
  unfold bounded, canonical_mantissa. intros H.
  apply andb_prop in H. destruct H as [Hcan Hmax].
  apply Z.eqb_eq in Hcan.
  pose proof (digits2_pos_bounds m) as [Blo Bhi].
  assert (Hpow : 0 < 2 ^ Zpos k) by (apply Z.pow_pos_nonneg; lia).
  destruct (Zpos m * 2 ^ Zpos k) as [ | M | M ] eqn:HM; try lia.
  assert (HdM : Zpos (digits2_pos M) = Zpos (digits2_pos m) + Zpos k).
  { apply digits2_pos_unique. rewrite <- HM.
    replace (Zpos (digits2_pos m) + Zpos k - 1)
      with ((Zpos (digits2_pos m) - 1) + Zpos k) by lia.
    rewrite !Z.pow_add_r by lia. nia. }
  unfold binary_round_aux, shr_fexp. cbn [Zdigits2 shr_record_of_loc].
  rewrite HdM.
  replace (Zpos (digits2_pos m) + Zpos k + (e - Zpos k))
    with (Zpos (digits2_pos m) + e) by lia.
  rewrite Hcan.
  replace (e - (e - Zpos k)) with (Zpos k) by lia.
  destruct (shr_spec (Zpos M) (e - Zpos k) k ltac:(lia)) as [s' Hshr].
  rewrite Hshr. rewrite <- HM.
  rewrite Z.div_mul by lia.
  assert (Hodd : Z.odd (Zpos m * 2 ^ Zpos k / 2 ^ (Zpos k - 1)) = false).
  { replace (2 ^ Zpos k) with (2 * 2 ^ (Zpos k - 1)).
    - rewrite Z.mul_assoc, Z.div_mul.
      + rewrite Z.odd_mul. simpl. apply andb_false_r.
      + assert (0 < 2 ^ (Zpos k - 1)) by (apply Z.pow_pos_nonneg; lia). lia.
    - rewrite <- Z.pow_succ_r by lia. f_equal. lia. }
  rewrite Hodd.
  replace (e - Zpos k + Zpos k) with e by lia.
  assert (Hround :
    round_nearest_even (Zpos m)
      (loc_of_shr_record {| shr_m := Zpos m; shr_r := false; shr_s := s' |})
    = Zpos m) by (destruct s'; reflexivity).
  cbn [shr_m fst snd]. rewrite Hround.
  cbn [Zdigits2 shr_record_of_loc]. rewrite Hcan, Z.sub_diag.
  cbn [shr shr_m]. now rewrite Hmax.
Qed.

(** Multiplying by [-1] changes the sign and nothing else. *)
Lemma mul_minus_one x : Prim2SF (x * -1) = SFopp (Prim2SF x).
Proof.
  rewrite mul_spec.
  change (Prim2SF (-1)) with (S754_finite true 4503599627370496 (-52)).
  pose proof (Prim2SF_valid x) as Hv.
  destruct (Prim2SF x) as [ s | s | | s m e ]; cbn [SF64mul SFmul SFopp].
  - now destruct s.
  - now destruct s.
  - reflexivity.
  - unfold SF64mul, SFmul.
    change (Zpos (m * 4503599627370496)) with (Zpos m * 2 ^ 52).
    change (e + -52) with (e - 52).
    rewrite (binary_round_aux_shifted _ m e 52 Hv).
    now destruct s.
Qed.

(** An angle of [[0, 90]], with either sign, is within [[-90, 90]]. *)
Lemma angle_with_sign d :
  (0 <=? d)%float = true -> (d <=? 90)%float = true ->
  ((-90 <=? d)%float = true /\ (d <=? 90)%float = true) /\
  ((-90 <=? d * -1)%float = true /\ (d * -1 <=? 90)%float = true).
Proof.
  rewrite !leb_spec, mul_minus_one.
  change (Prim2SF 0) with (S754_zero false).
  change (Prim2SF 90) with (S754_finite false 6333186975989760 (-46)).
  change (Prim2SF (-90)) with (S754_finite true 6333186975989760 (-46)).
  unfold SFleb.
  destruct (Prim2SF d) as [ s | s | | s m e ]; cbn [SFcompare SFopp negb];
    try discriminate.
  - intros _ _. now destruct s.
  - destruct s; discriminate.
  - destruct s; [ discriminate | ]. intros _ H. cbn [negb].
    repeat split; trivial.
    rewrite (Z.compare_antisym e (-46)).
    destruct (e ?= -46); cbn [CompOpp] in *; trivial; try discriminate.
    rewrite (Pos.compare_cont_antisym 6333186975989760 m Eq). cbn [CompOpp].
    exact H.
Qed.

(** The first stage of a rounding that shifts by [p > 0] bits: the
    mantissa becomes the quotient by [2^p], one more when it is rounded up,
    which takes the first dropped bit to be set. *)
Lemma round_first_stage s M E p :
  fexp prec emax (Zpos (digits2_pos M) + E) - E = Zpos p ->
  exists m1,
    (m1 = Zpos M / 2 ^ Zpos p \/
     (m1 = Zpos M / 2 ^ Zpos p + 1 /\
      Z.odd (Zpos M / 2 ^ (Zpos p - 1)) = true)) /\
    binary_round_aux prec emax s (Zpos M) E loc_Exact =
    (let '(mrs, e2) := shr_fexp prec emax m1 (E + Zpos p) loc_Exact in
     match shr_m mrs with
     | Z0 => S754_zero s
     | Zpos m =>
         if e2 <=? emax - prec then S754_finite s m e2 else S754_infinity s
     | Zneg _ => S754_nan
     end).
Proof.
  intros Hn. unfold binary_round_aux. unfold shr_fexp at 1.
  cbn [Zdigits2 shr_record_of_loc]. rewrite Hn.
  destruct (shr_spec (Zpos M) E p ltac:(lia)) as [s' Hshr]. rewrite Hshr.
  cbn [shr_m].
  destruct (Z.odd (Zpos M / 2 ^ (Zpos p - 1))) eqn:Hodd.
  - destruct s'; cbn [loc_of_shr_record round_nearest_even].
    + eexists. split; [ right; split; reflexivity | reflexivity ].
    + destruct (Z.even (Zpos M / 2 ^ Zpos p)).
      * eexists. split; [ left; reflexivity | reflexivity ].
      * eexists. split; [ right; split; reflexivity | reflexivity ].
  - destruct s'; cbn [loc_of_shr_record round_nearest_even];
      eexists; (split; [ left; reflexivity | reflexivity ]).
Qed.

Lemma shr_fexp_keeps m1 e1 :
  fexp prec emax (Zdigits2 m1 + e1) - e1 <= 0 ->
  shr_fexp prec emax m1 e1 loc_Exact =
  ({| shr_m := m1; shr_r := false; shr_s := false |}, e1).
Proof.
  intros H. unfold shr_fexp. cbn [shr_record_of_loc].
  destruct (fexp prec emax (Zdigits2 m1 + e1) - e1); try reflexivity. lia.
Qed.

Lemma shr_fexp_shifts m1 e1 q :
  0 <= m1 ->
  fexp prec emax (Zdigits2 m1 + e1) - e1 = Zpos q ->
  exists r' s',
    shr_fexp prec emax m1 e1 loc_Exact =
    ({| shr_m := m1 / 2 ^ Zpos q; shr_r := r'; shr_s := s' |}, e1 + Zpos q).
Proof.
  intros Hm H. unfold shr_fexp. cbn [shr_record_of_loc]. rewrite H.
  destruct (shr_spec m1 e1 q Hm) as [s' Hs]. rewrite Hs. eauto.
Qed.

Lemma pow2_le a b : a <= b -> 0 <= a -> 2 ^ a <= 2 ^ b.
Proof. intros. apply Z.pow_le_mono_r; lia. Qed.

Lemma digits2_pos_le p k : 0 <= k -> Zpos p <= 2 ^ k -> Zpos (digits2_pos p) <= k + 1.
Proof.
  intros Hk H. pose proof (digits2_pos_bounds p) as [Blo _].
  destruct (Z.le_gt_cases (Zpos (digits2_pos p)) (k + 1)) as [ | Hgt ]; trivial.
  assert (2 ^ (k + 1) <= 2 ^ (Zpos (digits2_pos p) - 1))
    by (apply pow2_le; lia).
  rewrite Z.pow_add_r in * by lia. change (2 ^ 1) with 2 in *. lia.
Qed.

(** The product of a float below 1 with 360 rounds to zero or to a float
    below 360. *)
Lemma round_mul_360 m e :
  bounded prec emax m e = true -> e <= -53 ->
  binary_round_aux prec emax false (Zpos m * 6333186975989760) (e - 44)
    loc_Exact = S754_zero false \/
  exists m2 e2,
    binary_round_aux prec emax false (Zpos m * 6333186975989760) (e - 44)
      loc_Exact = S754_finite false m2 e2 /\
    (e2 < -44 \/ (e2 = -44 /\ Zpos m2 < 6333186975989760)).
Proof.
  unfold bounded, canonical_mantissa. intros Hb He.
  apply andb_prop in Hb. destruct Hb as [Hcan _].
  apply Z.eqb_eq in Hcan. rewrite fexp_eq in Hcan.
  pose proof (digits2_pos_bounds m) as [Blo Bhi].
  set (dm := Zpos (digits2_pos m)) in *.
  assert (Hdm : 1 <= dm <= 53) by lia.
  assert (Hm53 : Zpos m < 9007199254740992).
  { assert (2 ^ dm <= 2 ^ 53) by (apply pow2_le; lia).
    change (2 ^ 53) with 9007199254740992 in *. lia. }
  destruct (Zpos m * 6333186975989760) as [ | M | M ] eqn:HM; try lia.
  pose proof (digits2_pos_bounds M) as [BMlo BMhi].
  set (dM := Zpos (digits2_pos M)) in *.
  assert (HdM : dm + 52 <= dM <= dm + 53).
  { split.
    - destruct (Z.le_gt_cases (dm + 52) dM) as [ | Hgt ]; trivial. exfalso.
      assert (2 ^ dM <= 2 ^ (dm - 1 + 52)) by (apply pow2_le; lia).
      rewrite Z.pow_add_r in * by lia.
      change (2 ^ 52) with 4503599627370496 in *. nia.
    - destruct (Z.le_gt_cases dM (dm + 53)) as [ | Hgt ]; trivial. exfalso.
      assert (2 ^ (dm + 53) <= 2 ^ (dM - 1)) by (apply pow2_le; lia).
      rewrite Z.pow_add_r in * by lia.
      change (2 ^ 53) with 9007199254740992 in *. nia. }
  set (e1 := Z.max (dM + (e - 44) - 53) (-1074)).
  assert (He1 : -1074 <= e1 <= -44) by (unfold e1; lia).
  destruct (e1 - (e - 44)) as [ | p | p ] eqn:Hp; try (unfold e1 in Hp; lia).
  destruct (round_first_stage false M (e - 44) p) as (m1 & Hm1 & Hr).
  { rewrite fexp_eq. exact Hp. }
  rewrite Hr. clear Hr.
  replace (e - 44 + Zpos p) with e1 by lia.
  assert (Hpow : 0 < 2 ^ Zpos p) by (apply Z.pow_pos_nonneg; lia).
  assert (Hq : 0 <= Zpos M / 2 ^ Zpos p < 9007199254740992).
  { split; [ apply Z.div_pos; lia | ].
    apply Z.div_lt_upper_bound; trivial.
    assert (2 ^ dM <= 2 ^ (Zpos p + 53)) by (apply pow2_le; unfold e1 in *; lia).
    rewrite Z.pow_add_r in * by lia.
    change (2 ^ 53) with 9007199254740992 in *. lia. }
  assert (Hm1b : 0 <= m1 <= 9007199254740992) by (destruct Hm1 as [-> | [-> _]]; lia).
  assert (Htight : e1 = -44 -> m1 < 6333186975989760).
  { intros Ht.
    assert (Hp53 : Zpos p = 53) by (unfold e1 in *; lia).
    rewrite Hp53 in Hm1.
    change (2 ^ 53) with 9007199254740992 in Hm1.
    change (2 ^ (53 - 1)) with 4503599627370496 in Hm1.
    rewrite <- HM in Hm1.
    destruct Hm1 as [-> | [-> Hodd]].
    - apply Z.div_lt_upper_bound; lia.
    - apply Z.odd_spec in Hodd. destruct Hodd as [k Hk].
      pose proof (Z.div_mod (Zpos m * 6333186975989760) 4503599627370496
                    ltac:(lia)) as D1.
      pose proof (Z.mod_pos_bound (Zpos m * 6333186975989760)
                    4503599627370496 ltac:(lia)) as D2.
      pose proof (Z.div_mod (Zpos m * 6333186975989760) 9007199254740992
                    ltac:(lia)) as D3.
      pose proof (Z.mod_pos_bound (Zpos m * 6333186975989760)
                    9007199254740992 ltac:(lia)) as D4.
      lia. }
  destruct m1 as [ | q | q ]; try lia.
  - left. rewrite shr_fexp_keeps; [ reflexivity | ].
    rewrite fexp_eq. cbn [Zdigits2]. lia.
  - right.
    pose proof (digits2_pos_bounds q) as [Bqlo Bqhi].
    assert (Hd1 : Zpos (digits2_pos q) <= 54).
    { apply (digits2_pos_le q 53); [ lia | ].
      change (2 ^ 53) with 9007199254740992. lia. }
    destruct (fexp prec emax (Zdigits2 (Zpos q) + e1) - e1)
      as [ | q2 | q2 ] eqn:Hn2.
    + rewrite shr_fexp_keeps by lia. cbn [shr_m].
      destruct (Z.leb_spec e1 (emax - prec)) as [ _ | Hbad ];
        [ | change (emax - prec) with 971 in Hbad; lia ].
      exists q, e1. split; trivial.
      destruct (Z.eq_dec e1 (-44)) as [Heq | Hne]; [ right | left; lia ].
      split; trivial. now apply Htight.
    + rewrite fexp_eq in Hn2. cbn [Zdigits2] in Hn2.
      assert (Hd54 : Zpos (digits2_pos q) = 54) by lia.
      assert (Hq2 : q2 = 1%positive) by lia. subst q2.
      assert (Hq53 : Zpos q = 9007199254740992).
      { rewrite Hd54 in Bqlo. change (2 ^ (54 - 1)) with 9007199254740992 in Bqlo.
        lia. }
      assert (Hne : e1 <> -44) by (intros Heq; apply Htight in Heq; lia).
      destruct (shr_fexp_shifts (Zpos q) e1 1 ltac:(lia)) as (r' & s' & Hs).
      { rewrite fexp_eq. exact Hn2. }
      rewrite Hs. cbn [shr_m]. rewrite Hq53.
      change (9007199254740992 / 2 ^ 1) with 4503599627370496.
      destruct (Z.leb_spec (e1 + 1) (emax - prec)) as [ _ | Hbad ];
        [ | change (emax - prec) with 971 in Hbad; lia ].
      exists 4503599627370496%positive, (e1 + 1). split; trivial.
      destruct (Z.eq_dec (e1 + 1) (-44)) as [Heq | Hne']; [ right | left; lia ].
      split; [ trivial | lia ].
    + rewrite shr_fexp_keeps by lia. cbn [shr_m].
      destruct (Z.leb_spec e1 (emax - prec)) as [ _ | Hbad ];
        [ | change (emax - prec) with 971 in Hbad; lia ].
      exists q, e1. split; trivial.
      destruct (Z.eq_dec e1 (-44)) as [Heq | Hne]; [ right | left; lia ].
      split; trivial. now apply Htight.
Qed.

Lemma compare_cont_lt p q :
  Zpos p < Zpos q <-> PosDef.Pos.compare_cont Eq p q = Lt.
Proof. split; intros H; exact H. Qed.

(** A float of [[0, 1)] times 360 is a float of [[0, 360)]. *)
Lemma unit_times_360 u :
  (0 <=? u)%float = true -> (u <? 1)%float = true ->
  (0 <=? u * 360)%float = true /\ (u * 360 <? 360)%float = true.
Proof.
  rewrite !leb_spec, !ltb_spec, mul_spec.
  change (Prim2SF 0) with (S754_zero false).
  change (Prim2SF 1) with (S754_finite false 4503599627370496 (-52)).
  change (Prim2SF 360) with (S754_finite false 6333186975989760 (-44)).
  pose proof (Prim2SF_valid u) as Hv.
  unfold SFleb, SFltb.
  destruct (Prim2SF u) as [ s | s | | s m e ].
  - intros _ _. now destruct s.
  - intros H0 H1. exfalso. destruct s; simpl in H0, H1; discriminate.
  - intros H0. exfalso. simpl in H0. discriminate.
  - intros H0 Hlt.
    assert (Hs : s = false)
      by (destruct s; [ simpl in H0; discriminate | reflexivity ]).
    subst s. clear H0. cbn [SFcompare] in Hlt.
    assert (He : e <= -53).
    { cbn [valid_binary] in Hv. unfold bounded, canonical_mantissa in Hv.
      apply andb_prop in Hv. destruct Hv as [Hcan _].
      apply Z.eqb_eq in Hcan. rewrite fexp_eq in Hcan.
      pose proof (digits2_pos_bounds m) as [Blo Bhi].
      destruct (e ?= -52) eqn:Hc.
      - apply Z.compare_eq in Hc.
        assert (Hd : Zpos (digits2_pos m) = 53) by lia.
        rewrite Hd in Blo. change (2 ^ (53 - 1)) with 4503599627370496 in Blo.
        destruct (PosDef.Pos.compare_cont Eq m 4503599627370496) eqn:Hm;
          try discriminate Hlt.
        apply compare_cont_lt in Hm. lia.
      - rewrite Z.compare_lt_iff in Hc. lia.
      - discriminate Hlt. }
    clear Hlt. unfold SF64mul, SFmul. cbn [xorb].
    rewrite Pos2Z.inj_mul. rewrite <- (Z.sub_opp_r e (-44)).
    change (- -44) with 44.
    destruct (round_mul_360 m e Hv He) as [Hr | (m2 & e2 & Hr & Hlt360)];
      rewrite Hr.
    + split; reflexivity.
    + cbn [SFcompare]. split; [ reflexivity | ].
      destruct Hlt360 as [Hlt' | [-> Hm2]].
      * apply Z.compare_lt_iff in Hlt'. rewrite Hlt'. reflexivity.
      * rewrite Z.compare_refl.
        rewrite (proj1 (compare_cont_lt _ _) Hm2). reflexivity.
Qed.

(** A rounded value has the sign it was given, or is NaN. *)
Definition signed (s : bool) (x : spec_float) : Prop :=
  match x with
  | S754_zero s' | S754_infinity s' | S754_finite s' _ _ => s' = s
  | S754_nan => True
  end.

Lemma binary_round_aux_sign s m e l :
  signed s (binary_round_aux prec emax s m e l).
Proof.
  unfold binary_round_aux.
  destruct (shr_fexp prec emax m e l) as [mrs e1].
  destruct (shr_fexp prec emax _ e1 loc_Exact) as [mrs2 e2].
  destruct (shr_m mrs2); cbn [signed]; trivial.
  destruct (e2 <=? emax - prec); reflexivity.
Qed.

(** [x < 0] is false for the zeros, for NaN and for what has a positive
    sign. *)
Lemma not_negative_spec x :
  (x <? 0)%float = false <->
  match Prim2SF x with
  | S754_zero _ | S754_nan => True
  | S754_infinity s | S754_finite s _ _ => s = false
  end.
Proof.
  rewrite ltb_spec. change (Prim2SF 0) with (S754_zero false).
  unfold SFltb.
  destruct (Prim2SF x) as [ s | s | | s m e ]; cbn [SFcompare];
    try tauto; destruct s; split; intros; trivial; discriminate.
Qed.

(** A product of two floats that are not negative is not negative. *)
Lemma mul_not_negative x y :
  (x <? 0)%float = false -> (y <? 0)%float = false ->
  (x * y <? 0)%float = false.
Proof.
  rewrite !not_negative_spec, mul_spec. unfold SF64mul.
  destruct (Prim2SF x) as [ sx | sx | | sx mx ex ];
    destruct (Prim2SF y) as [ sy | sy | | sy my ey ];
    cbn [SFmul]; trivial; intros; subst; trivial.
  pose proof (binary_round_aux_sign false (Zpos (mx * my)) (ex + ey) loc_Exact)
    as H.
  cbn [xorb].
  destruct (binary_round_aux prec emax false (Zpos (mx * my)) (ex + ey)
              loc_Exact); cbn [signed] in H; trivial.
Qed.

Lemma leb_zero_not_negative u :
  (0 <=? u)%float = true -> (u <? 0)%float = false.
Proof.
  rewrite leb_spec, not_negative_spec.
  change (Prim2SF 0) with (S754_zero false). unfold SFleb.
  destruct (Prim2SF u) as [ s | s | | s m e ]; cbn [SFcompare]; trivial;
    destruct s; trivial; discriminate.
Qed.

End Binary64.

(* ===================================================================== *)
(** ** Properties *)
(* ===================================================================== *)

Section Properties.

Context (R : Runtime).

(** *** The loop *)

Lemma loop_body_spec ds zs pop w pop' w' :
  loop_body R ds zs pop w = (Ok pop', w') <->
  exists src, sample_source R pop ds zs w = (Ok src, w') /\
              pop' = Population.append pop src.
Proof.
  unfold loop_body, bindM, ret.
  destruct (sample_source R pop ds zs w) as [[src | e] w1]; split.
  - intros H. inversion H. now exists src.
  - intros [s [H ->]]. now inversion H.
  - discriminate.
  - intros [s [H _]]. discriminate.
Qed.

Lemma sampling_loop_step ds zs pop w :
  sampling_loop R ds zs pop w =
  if loop_cond pop then
    match loop_body R ds zs pop w with
    | (Ok pop', w') => sampling_loop R ds zs pop' w'
    | (Err e, w') => (Err e, w')
    end
  else (Ok pop, w).
Proof.
  funelim (sampling_loop R ds zs pop w).
  - match goal with E : loop_cond _ = false |- _ => now rewrite E end.
  - now rewrite Hc, Hb.
  - match goal with E : loop_body _ _ _ _ _ = _ |- _ => now rewrite Hc, E end.
Qed.

(** Induction over the iterations of the loop. *)
Lemma sampling_loop_induction ds zs
  (P : Population.t -> world R -> result Population.t * world R -> Prop) :
  (forall pop w, loop_cond pop = false -> P pop w (Ok pop, w)) ->
  (forall pop w e w',
      loop_cond pop = true -> loop_body R ds zs pop w = (Err e, w') ->
      P pop w (Err e, w')) ->
  (forall pop w pop1 w1,
      loop_cond pop = true -> loop_body R ds zs pop w = (Ok pop1, w1) ->
      P pop1 w1 (sampling_loop R ds zs pop1 w1) ->
      P pop w (sampling_loop R ds zs pop1 w1)) ->
  forall pop w, P pop w (sampling_loop R ds zs pop w).
Proof.
  intros Hexit Hraise Hnext pop.
  remember (remaining pop) as k eqn:Hk. revert pop Hk.
  induction k as [k IH] using lt_wf_ind. intros pop Hk w.
  rewrite sampling_loop_step.
  destruct (loop_cond pop) eqn:Hc; [ | now apply Hexit ].
  destruct (loop_body R ds zs pop w) as [[pop1 | e] w1] eqn:Hb.
  - apply Hnext; trivial.
    apply (IH (remaining pop1)); trivial.
    apply loop_body_spec in Hb. destruct Hb as [src [_ ->]].
    unfold loop_cond in Hc. apply Z.ltb_lt in Hc.
    subst k. unfold remaining. simpl. lia.
  - now apply Hraise.
Qed.

Lemma iterates_trans ds zs pop w pop1 w1 pop2 w2 :
  iterates R ds zs pop w pop1 w1 ->
  iterates R ds zs pop1 w1 pop2 w2 ->
  iterates R ds zs pop w pop2 w2.
Proof.
  induction 1; trivial. intros. eapply iterates_next; eauto.
Qed.

(** The loop ends at its head with the condition false, or inside an
    iteration that raises. *)
Lemma sampling_loop_returns ds zs pop w pop' w' :
  sampling_loop R ds zs pop w = (Ok pop', w') ->
  iterates R ds zs pop w pop' w' /\ loop_cond pop' = false.
Proof.
  revert pop' w'.
  apply (sampling_loop_induction ds zs
           (fun pop w r => forall pop' w', r = (Ok pop', w') ->
              iterates R ds zs pop w pop' w' /\ loop_cond pop' = false)).
  - intros p v Hc pop' w' H. inversion H; subst. split; trivial. constructor.
  - discriminate.
  - intros p v p1 v1 Hc Hb IH pop' w' H.
    destruct (IH _ _ H) as [Hit Hend]. split; trivial.
    eapply iterates_next; eauto.
Qed.

Lemma sampling_loop_raises ds zs pop w e w' :
  sampling_loop R ds zs pop w = (Err e, w') ->
  exists pop1 w1,
    iterates R ds zs pop w pop1 w1 /\ loop_cond pop1 = true /\
    loop_body R ds zs pop1 w1 = (Err e, w').
Proof.
  revert e w'.
  apply (sampling_loop_induction ds zs
           (fun pop w r => forall e w', r = (Err e, w') ->
              exists pop1 w1,
                iterates R ds zs pop w pop1 w1 /\ loop_cond pop1 = true /\
                loop_body R ds zs pop1 w1 = (Err e, w'))).
  - discriminate.
  - intros p v e0 v' Hc Hb e w' H. inversion H; subst.
    exists p, v. repeat split; trivial. constructor.
  - intros p v p1 v1 Hc Hb IH e w' H.
    destruct (IH _ _ H) as [p2 [v2 [Hit [Hc2 Hb2]]]].
    exists p2, v2. repeat split; trivial. eapply iterates_next; eauto.
Qed.

(** [sample_source] reads the configuration of the population only. *)
Lemma sample_source_with_run pop n srcs ds zs :
  sample_source R (Population.with_run pop n srcs) ds zs =
  sample_source R pop ds zs.
Proof. reflexivity. Qed.

Lemma with_run_with_run pop n srcs n' srcs' :
  Population.with_run (Population.with_run pop n srcs) n' srcs' =
  Population.with_run pop n' srcs'.
Proof. reflexivity. Qed.

Lemma with_run_same pop :
  Population.with_run pop (Population.n_srcs pop) (Population.sources pop) = pop.
Proof. now destruct pop. Qed.

Lemma sampled_app pop ds zs w l1 w1 l2 w2 :
  sampled R pop ds zs w l1 w1 -> sampled R pop ds zs w1 l2 w2 ->
  sampled R pop ds zs w (l1 ++ l2) w2.
Proof.
  induction 1; simpl; trivial. intros. econstructor; eauto.
Qed.

Lemma sampled_Forall pop ds zs w l w' :
  sampled R pop ds zs w l w' -> Forall (sampled_from R pop ds zs) l.
Proof.
  induction 1; constructor; trivial. now exists w, w1.
Qed.

(** What some iterations do to a population: they append the sources they
    sampled, in order, and count them. *)
Lemma iterates_appends ds zs pop w pop' w' :
  iterates R ds zs pop w pop' w' ->
  exists new,
    sampled R pop ds zs w new w' /\
    pop' = Population.with_run pop
             (Population.n_srcs pop + Z.of_nat (List.length new))
             (Population.sources pop ++ new).
Proof.
  induction 1 as [pop w | pop w pop1 w1 pop' w' Hc Hb Hit IH].
  - exists []. split; [ constructor | ].
    simpl. rewrite Z.add_0_r, app_nil_r. symmetry. apply with_run_same.
  - apply loop_body_spec in Hb. destruct Hb as [src [Hs ->]].
    destruct IH as [new [Hnew ->]].
    exists (src :: new). split.
    + econstructor; eauto.
      unfold Population.append in Hnew.
      clear - Hnew. induction Hnew; econstructor; eauto.
    + unfold Population.append. rewrite with_run_with_run. simpl.
      rewrite <- app_assoc. simpl. f_equal. lia.
Qed.

(** *** Runs that return *)

Lemma bindM_ok {A B} (c : M R A) (k : A -> M R B) w b w' :
  bindM R c k w = (Ok b, w') ->
  exists a w1, c w = (Ok a, w1) /\ k a w1 = (Ok b, w').
Proof.
  unfold bindM. destruct (c w) as [[a | e] w1]; [ | discriminate ].
  intros H. now exists a, w1.
Qed.

Lemma ext_ok {A} c (f : ambient R -> result A * ambient R) w x w' :
  ext R c f w = (Ok x, w') ->
  exists a', f (amb w) = (Ok x, a') /\
             w' = World a' (log w ++ [c]).
Proof.
  unfold ext. destruct (f (amb w)) as [r a']. intros H. inversion H.
  now exists a'.
Qed.

Lemma random_ok w u w' :
  random R w = (Ok u, w') ->
  u = draw R 0 (amb w) /\
  w' = World (after_draws R 1 (amb w)) (log w ++ [CallRandom]).
Proof.
  unfold random, ext, draw. simpl.
  destruct (random_random R (amb w)) as [u0 a']. intros H. now inversion H.
Qed.

Lemma lift_ok {A} (r : result A) w x w' :
  lift R r w = (Ok x, w') -> r = Ok x /\ w' = w.
Proof. unfold lift. intros H. now inversion H. Qed.

Lemma construct_ok c w x w' :
  construct R c w = (Ok x, w') -> w' = World (amb w) (log w ++ [c]).
Proof. unfold construct. intros H. now inversion H. Qed.

Lemma ret_ok {A} (a : A) w x w' :
  ret R a w = (Ok x, w') -> x = a /\ w' = w.
Proof. unfold ret. intros H. now inversion H. Qed.

(** Takes a run [H : (x <- c ;; k) w = (Ok _, _)] apart, one step at a
    time. *)
Ltac run_inv H :=
  repeat
    (cbv beta zeta in H;
     match type of H with
     | bindM _ _ _ _ = (Ok _, _) =>
         let a := fresh "x" in
         let w := fresh "w" in
         let H1 := fresh "Hstep" in
         apply bindM_ok in H; destruct H as (a & w & H1 & H);
         first
           [ apply random_ok in H1; destruct H1 as (? & ?)
           | apply ext_ok in H1; destruct H1 as (? & H1 & ?)
           | apply lift_ok in H1; destruct H1 as (H1 & ?)
           | apply construct_ok in H1
           | idtac ];
         subst; cbn [amb log] in *
     end).

(** *** One source *)

(** What a source that was sampled is made of. *)
Lemma sample_source_inv pop ds zs w src w' :
  sample_source R pop ds zs w = (Ok src, w') ->
  geometry R (Population.v_max pop) (amb w) src /\
  Source.dm_host src = 100%float /\
  Source.dm src =
    (Source.dm_mw src + Source.dm_igm src + Source.dm_host src)%float /\
  Source.si src = (-1.4)%float /\
  (exists a a',
      dis_powerlaw R (Population.lum_min pop) (Population.lum_max pop)
        (Population.lum_pow pop) a = (Ok (Source.lum_bol src), a')) /\
  log w' = (log w ++ calls_of_a_source)%list.
Proof.
  intros H. unfold sample_source in H. run_inv H.
  apply ret_ok in H. destruct H as [-> ->].
  cbn [Source.gb Source.gl Source.dist Source.dm Source.dm_mw Source.dm_igm
       Source.dm_host Source.si Source.lum_bol amb log].
  unfold geometry.
  repeat match goal with |- _ /\ _ => split end;
    try reflexivity; try eassumption.
  - exists x0. split; [ assumption | reflexivity ].
  - eauto.
  - unfold calls_of_a_source. repeat rewrite <- app_assoc. reflexivity.
Qed.

(** *** The checks *)

Lemma check_pars_spec pars n m_items m_len :
  0 < n ->
  (is_numbers n pars = true /\ check_pars pars n m_items m_len = Ok tt) \/
  (is_numbers n pars = false /\
   exists e, check_pars pars n m_items m_len = Err e).
Proof.
  intros Hn. unfold check_pars, all_float_int, is_numbers.
  assert (Hlist : forall l,
    (forallb isinstance_float_int l && (Z.of_nat (List.length l) =? n) = true /\
     (_ <- raise_if (negb (forallb isinstance_float_int l)) m_items ;;
      k <- Ok (Z.of_nat (List.length l)) ;;
      raise_if (negb (k =? n)) m_len)%result = Ok tt) \/
    (forallb isinstance_float_int l && (Z.of_nat (List.length l) =? n) = false /\
     exists e,
       (_ <- raise_if (negb (forallb isinstance_float_int l)) m_items ;;
        k <- Ok (Z.of_nat (List.length l)) ;;
        raise_if (negb (k =? n)) m_len)%result = Err e)).
  { intros l. destruct (forallb isinstance_float_int l); cbn -[Z.eqb Z.of_nat];
      [ | right; split; [ reflexivity | eexists; reflexivity ] ].
    destruct (Z.of_nat (List.length l) =? n); cbn;
      [ left; split; reflexivity
      | right; split; [ reflexivity | eexists; reflexivity ] ]. }
  destruct pars as [ | b | z | f | s | l | l ]; cbn -[Z.eqb Z.of_nat];
    try (right; split; [ reflexivity | eexists; reflexivity ]);
    try apply Hlist.
  destruct s as [ | c s ]; cbn -[Z.eqb Z.of_nat].
  - change (Z.of_nat 0) with 0.
    destruct (0 =? n) eqn:E; [ apply Z.eqb_eq in E; lia | ].
    right. split; [ reflexivity | eexists; reflexivity ].
  - right. split; [ reflexivity | eexists; reflexivity ].
Qed.

Lemma check_pars_valid pars n m_items m_len :
  is_numbers n pars = true -> check_pars pars n m_items m_len = Ok tt.
Proof.
  unfold check_pars, all_float_int, is_numbers.
  destruct pars as [ | b | z | f | s | l | l ]; try discriminate;
    intros H; apply andb_prop in H; destruct H as [H1 H2];
    simpl; rewrite H1; simpl; rewrite H2; reflexivity.
Qed.

Lemma check_pars_result pars n m_items m_len u :
  check_pars pars n m_items m_len = Ok u -> 0 < n ->
  is_numbers n pars = true.
Proof.
  intros H Hn.
  destruct (check_pars_spec pars n m_items m_len Hn) as [[Hv _] | [_ [e He]]];
    [ assumption | congruence ].
Qed.

(** The checks pass exactly on the arguments that meet every rule. *)
Lemma check_input_valid a :
  args_valid a = true ->
  check_input R a =
    Ok {| ck_n_gen := int_of (Arg.n_gen a);
          ck_cosmology := bool_of (Arg.cosmology a);
          ck_name := name_of (Arg.name a) |}.
Proof.
  unfold args_valid. intros H.
  apply andb_prop in H; destruct H as [H Vz].
  apply andb_prop in H; destruct H as [H Vsi].
  apply andb_prop in H; destruct H as [H Vname].
  apply andb_prop in H; destruct H as [H Vpulse].
  apply andb_prop in H; destruct H as [H Vlum].
  apply andb_prop in H; destruct H as [H Vem].
  apply andb_prop in H; destruct H as [H Vmodel].
  apply andb_prop in H; destruct H as [H Vcp].
  apply andb_prop in H; destruct H as [Vn Vc].
  unfold check_input.
  destruct (Arg.n_gen a) as [ | | n | | | | ]; try discriminate. simpl in Vn.
  apply Z.leb_le in Vn.
  destruct (n <? 1) eqn:E; [ apply Z.ltb_lt in E; lia | ]. simpl.
  destruct (Arg.cosmology a) as [ | c | | | | | ]; try discriminate.
  rewrite (check_pars_valid _ _ _ _ Vcp). simpl.
  rewrite Vmodel. simpl.
  rewrite (check_pars_valid _ _ _ _ Vem). simpl.
  rewrite (check_pars_valid _ _ _ _ Vlum). simpl.
  rewrite (check_pars_valid _ _ _ _ Vpulse). simpl.
  rewrite (check_pars_valid _ _ _ _ Vsi).
  rewrite Vz. simpl.
  rename Vname into V2.
  unfold rule_name in V2.
  destruct (Arg.name a) as [ | b | z | f | s | l | l ]; simpl in *;
    try reflexivity.
  - destruct b; [ discriminate | reflexivity ].
  - destruct (z =? 0); [ reflexivity | discriminate ].
  - destruct (f =? 0)%float; [ reflexivity | discriminate ].
  - destruct s; reflexivity.
  - destruct l; [ reflexivity | discriminate ].
  - destruct l; [ reflexivity | discriminate ].
Qed.

Lemma bind_ok {A B} (r : result A) (k : A -> result B) b :
  Py.bind r k = Ok b -> exists a, r = Ok a /\ k a = Ok b.
Proof. destruct r as [a | e]; simpl; [ eauto | discriminate ]. Qed.

Lemma raise_if_ok c m u : raise_if c m = Ok u -> c = false.
Proof. destruct c; [ discriminate | reflexivity ]. Qed.

Ltac check_inv H :=
  let u := fresh "u" in
  let H1 := fresh "Hck" in
  apply bind_ok in H; destruct H as (u & H1 & H);
  first [ apply check_pars_result in H1; [ | lia ]
        | apply raise_if_ok in H1 ].

Lemma check_input_ok a ck :
  check_input R a = Ok ck -> args_valid a = true.
Proof.
  unfold check_input, args_valid. intros H.
  destruct (Arg.n_gen a) as [ | | n | | | | ]; try discriminate H.
  check_inv H.
  destruct (Arg.cosmology a) as [ | c | | | | | ]; try discriminate H.
  do 5 check_inv H.
  assert (Hname : rule_name (Arg.name a) = true).
  { unfold rule_name. destruct (truthy (Arg.name a)); [ | reflexivity ].
    destruct (Arg.name a); try discriminate H. reflexivity. }
  destruct (if truthy (Arg.name a) then Arg.name a else VStr "Initial");
    try discriminate H.
  do 2 check_inv H.
  unfold rule_n_gen. apply Z.ltb_ge in Hck.
  apply negb_false_iff in Hck1, Hck6.
  rewrite Hck0, Hck1, Hck2, Hck3, Hck4, Hck5, Hck6, Hname.
  simpl. rewrite !andb_true_r. apply Z.leb_le. lia.
Qed.

Lemma check_input_invalid a :
  args_valid a = false -> exists e, check_input R a = Err e.
Proof.
  intros V. destruct (check_input R a) as [ck | e] eqn:H.
  - apply check_input_ok in H. congruence.
  - now exists e.
Qed.

Lemma check_input_spec a :
  (args_valid a = true /\ exists ck, check_input R a = Ok ck) \/
  (args_valid a = false /\ exists e, check_input R a = Err e).
Proof.
  destruct (args_valid a) eqn:V.
  - left. split; trivial. eexists. now apply check_input_valid.
  - right. split; trivial. now apply check_input_invalid.
Qed.

(** *** Setting up the population *)

Lemma getitem_numbers k v i :
  is_numbers k v = true -> Z.of_nat i < k ->
  exists x, getitem v i = Ok x /\ isinstance_float_int x = true.
Proof.
  unfold is_numbers, getitem. intros H Hi.
  destruct v as [ | | | | | l | l ]; try discriminate H;
    apply andb_prop in H; destruct H as [Hall Hlen];
    apply Z.eqb_eq in Hlen;
    (destruct (nth_error l i) as [x | ] eqn:E;
     [ exists x; split; trivial;
       rewrite forallb_forall in Hall; apply Hall;
       eapply nth_error_In; eauto
     | apply nth_error_None in E; lia ]).
Qed.

(** The population [set_up] returns: nothing generated yet, and every
    attribute from the argument it is documented to come from; [v_max] is
    what [go.z_to_v] returned for [z_max] alone. *)
Lemma set_up_inv a ck w pop tabs w' :
  set_up R a ck w = (Ok (pop, tabs), w') ->
  (Population.n_srcs pop = 0 /\ Population.sources pop = []) /\
  (Population.n_gen pop = ck_n_gen ck /\
   Population.name pop = ck_name ck /\
   Population.cosmology pop = ck_cosmology ck /\
   Population.electron_model pop = Arg.electron_model a /\
   Population.z_max pop = Arg.z_max a) /\
  (getitem (Arg.cosmo_pars a) 0 = Ok (Population.H_0 pop) /\
   getitem (Arg.cosmo_pars a) 1 = Ok (Population.W_m pop) /\
   getitem (Arg.cosmo_pars a) 2 = Ok (Population.W_v pop)) /\
  (exists a1,
      go_z_to_v R (Arg.z_max a) (amb w) = (Ok (Population.v_max pop), a1)) /\
  (getitem (Arg.lum_dist_pars a) 0 = Ok (Population.lum_min pop) /\
   getitem (Arg.lum_dist_pars a) 1 = Ok (Population.lum_max pop) /\
   getitem (Arg.lum_dist_pars a) 2 = Ok (Population.lum_pow pop)) /\
  (getitem (Arg.pulse a) 0 = Ok (Population.w_min pop) /\
   getitem (Arg.pulse a) 1 = Ok (Population.w_max pop)) /\
  (getitem (Arg.emission_pars a) 0 = Ok (Population.f_min pop) /\
   getitem (Arg.emission_pars a) 1 = Ok (Population.f_max pop)) /\
  (getitem (Arg.si_pars a) 0 = Ok (Population.si_mean pop) /\
   getitem (Arg.si_pars a) 1 = Ok (Population.si_sigma pop)) /\
  log w' = (log w ++ [CallPopulation; CallZToV; CallDistLookup])%list.
Proof.
  intros H. unfold set_up in H. run_inv H.
  apply ret_ok in H. destruct H as [H ->]. inversion H; subst; clear H.
  cbn [Population.n_srcs Population.sources Population.n_gen Population.name
       Population.cosmology Population.electron_model Population.z_max
       Population.H_0 Population.W_m Population.W_v Population.v_max
       Population.lum_min Population.lum_max Population.lum_pow
       Population.w_min Population.w_max Population.f_min Population.f_max
       Population.si_mean Population.si_sigma amb log].
  repeat match goal with |- _ /\ _ => split end;
    try reflexivity; try assumption.
  - eauto.
  - repeat rewrite <- app_assoc. reflexivity.
Qed.

Lemma generate_inv a w pop w' :
  generate R a w = (Ok pop, w') ->
  exists ck pop0 ds zs w0,
    check_input R a = Ok ck /\
    set_up R a ck w = (Ok (pop0, (ds, zs)), w0) /\
    sampling_loop R ds zs pop0 w0 = (Ok pop, w').
Proof.
  intros H. unfold generate in H.
  apply bindM_ok in H. destruct H as (ck & w1 & Hck & H).
  apply lift_ok in Hck. destruct Hck as [Hck ->].
  apply bindM_ok in H. destruct H as ([pop0 [ds zs]] & w0 & Hset & H).
  exists ck, pop0, ds, zs, w0. auto.
Qed.

(** A run that fails a check raises at once: the world is the one
    [generate] was called in. *)
Lemma generate_check_fails a e w :
  check_input R a = Err e -> generate R a w = (Err e, w).
Proof. intros H. unfold generate, bindM, lift. now rewrite H. Qed.

(** What the sources of a returned population are: sampled one after the
    other for the population as it was set up, and as many as [n_srcs]
    says. *)
Lemma generate_sources a w pop w' :
  generate R a w = (Ok pop, w') ->
  exists ck pop0 ds zs w0,
    check_input R a = Ok ck /\
    set_up R a ck w = (Ok (pop0, (ds, zs)), w0) /\
    sampled R pop0 ds zs w0 (Population.sources pop) w' /\
    pop = Population.with_run pop0
            (Z.of_nat (List.length (Population.sources pop)))
            (Population.sources pop) /\
    loop_cond pop = false.
Proof.
  intros H. apply generate_inv in H.
  destruct H as (ck & pop0 & ds & zs & w0 & Hck & Hset & Hloop).
  exists ck, pop0, ds, zs, w0. repeat split; trivial;
    apply sampling_loop_returns in Hloop; destruct Hloop as [Hit Hend];
    trivial;
    apply iterates_appends in Hit; destruct Hit as [new [Hnew ->]];
    apply set_up_inv in Hset; destruct Hset as [[Hn Hs] _];
    rewrite Hn, Hs; simpl; trivial.
Qed.

(** *** Runs in which nothing raises *)

Lemma bindM_total {A B} (c : M R A) (k : A -> M R B) w :
  (exists a w1, c w = (Ok a, w1)) ->
  (forall a w1, c w = (Ok a, w1) -> exists b w', k a w1 = (Ok b, w')) ->
  exists b w', bindM R c k w = (Ok b, w').
Proof.
  intros (a & w1 & Hc) Hk. unfold bindM. rewrite Hc. now apply Hk.
Qed.

Lemma ext_total {A} c (f : ambient R -> result A * ambient R) w :
  (forall a, is_ok (fst (f a)) = true) ->
  exists x w', ext R c f w = (Ok x, w').
Proof.
  intros H. unfold ext. specialize (H (amb w)).
  destruct (f (amb w)) as [[x | e] a']; [ eauto | discriminate ].
Qed.

Lemma random_total w : exists u w', random R w = (Ok u, w').
Proof.
  unfold random, ext. destruct (random_random R (amb w)); eauto.
Qed.

Lemma lift_total {A} (r : result A) w :
  is_ok r = true -> exists x w', lift R r w = (Ok x, w').
Proof. unfold lift. destruct r; [ eauto | discriminate ]. Qed.

Lemma construct_total c w : exists x w', construct R c w = (Ok x, w').
Proof. unfold construct. eauto. Qed.

Lemma draw_unit k a :
  unit_draws R ->
  (0 <=? draw R k a)%float = true /\ (draw R k a <? 1)%float = true.
Proof. intros H. apply H. Qed.

Lemma sample_source_total pop ds zs w :
  never_raises R -> unit_draws R ->
  exists src w', sample_source R pop ds zs w = (Ok src, w').
Proof.
  intros (Hasin & Hpow & _ & _ & Hz & Hxyz & Hmw & Higm & Hpulse & Hlum) Hu.
  unfold sample_source.
  apply bindM_total; [ apply construct_total | intros _ w1 _ ].
  apply bindM_total; [ apply random_total | intros u1 w2 H1 ].
  apply random_ok in H1. destruct H1 as [-> _].
  apply bindM_total;
    [ apply lift_total; apply Hasin; apply draw_unit; assumption
    | intros x w3 _ ].
  apply bindM_total; [ apply random_total | intros u2 w4 _ ].
  apply bindM_total; [ apply random_total | intros u3 w5 _ ].
  apply bindM_total; [ apply random_total | intros u4 w6 _ ].
  apply bindM_total; [ apply lift_total; apply Hpow | intros d w7 _ ].
  apply bindM_total; [ apply ext_total; intros; apply Hz | intros z w8 _ ].
  apply bindM_total; [ apply ext_total; intros; apply Hxyz | intros xyz w9 _ ].
  apply bindM_total; [ apply ext_total; intros; apply Hmw | intros mw w10 _ ].
  apply bindM_total; [ apply ext_total; intros; apply Higm | intros igm w11 _ ].
  apply bindM_total;
    [ apply ext_total; intros; apply Hpulse | intros wi w12 _ ].
  apply bindM_total; [ apply ext_total; intros; apply Hlum | intros lb w13 _ ].
  unfold ret. eauto.
Qed.

Lemma sampling_loop_total ds zs :
  (forall pop w, exists src w', sample_source R pop ds zs w = (Ok src, w')) ->
  forall pop w, exists pop' w', sampling_loop R ds zs pop w = (Ok pop', w').
Proof.
  intros Hbody.
  apply (sampling_loop_induction ds zs
           (fun pop w r => exists pop' w', r = (Ok pop', w'))).
  - eauto.
  - intros pop w e w' _ Hb. exfalso.
    destruct (Hbody pop w) as (src & w1 & Hs).
    unfold loop_body, bindM in Hb. rewrite Hs in Hb. discriminate.
  - auto.
Qed.

Lemma set_up_total a ck w :
  never_raises R -> args_valid a = true ->
  exists st w', set_up R a ck w = (Ok st, w').
Proof.
  intros (_ & _ & Hv & Hlookup & _) H. unfold args_valid in H.
  apply andb_prop in H; destruct H as [H _].
  apply andb_prop in H; destruct H as [H Vsi].
  apply andb_prop in H; destruct H as [H _].
  apply andb_prop in H; destruct H as [H Vpulse].
  apply andb_prop in H; destruct H as [H Vlum].
  apply andb_prop in H; destruct H as [H Vem].
  apply andb_prop in H; destruct H as [H _].
  apply andb_prop in H; destruct H as [_ Vcp].
  assert (Hitem : forall k v i w0, is_numbers k v = true -> Z.of_nat i < k ->
            exists x w', lift R (getitem v i) w0 = (Ok x, w')).
  { intros k v i w0 Hk Hi.
    destruct (getitem_numbers k v i Hk Hi) as (x & Hx & _).
    unfold lift. rewrite Hx. eauto. }
  unfold set_up.
  apply bindM_total; [ apply construct_total | intros _ w1 _ ].
  do 3 (apply bindM_total;
        [ eapply Hitem; [ exact Vcp | simpl; lia ] | intros ? ? _ ]).
  apply bindM_total; [ apply ext_total; intros; apply Hv | intros ? ? _ ].
  do 3 (apply bindM_total;
        [ eapply Hitem; [ exact Vlum | simpl; lia ] | intros ? ? _ ]).
  do 2 (apply bindM_total;
        [ eapply Hitem; [ exact Vpulse | simpl; lia ] | intros ? ? _ ]).
  do 2 (apply bindM_total;
        [ eapply Hitem; [ exact Vem | simpl; lia ] | intros ? ? _ ]).
  do 2 (apply bindM_total;
        [ eapply Hitem; [ exact Vsi | simpl; lia ] | intros ? ? _ ]).
  cbv zeta.
  apply bindM_total; [ apply ext_total; intros; apply Hlookup | intros ? ? _ ].
  unfold ret. eauto.
Qed.

Lemma generate_total a w :
  never_raises R -> unit_draws R -> args_valid a = true ->
  exists pop w', generate R a w = (Ok pop, w').
Proof.
  intros Hnr Hu Hv. unfold generate.
  apply bindM_total.
  - unfold lift. rewrite (check_input_valid a Hv). eauto.
  - intros ck w1 _.
    apply bindM_total; [ now apply set_up_total | intros st w2 _ ].
    apply sampling_loop_total. intros. now apply sample_source_total.
Qed.

(** *** The count of generated sources *)

Lemma iterates_bounds ds zs pop w pop' w' :
  iterates R ds zs pop w pop' w' ->
  Population.n_srcs pop <= Population.n_gen pop ->
  Population.n_srcs pop' <= Population.n_gen pop' /\
  Population.n_gen pop' = Population.n_gen pop.
Proof.
  induction 1 as [pop w | pop w pop1 w1 pop' w' Hc Hb Hit IH]; intros Hle.
  - split; trivial.
  - apply loop_body_spec in Hb. destruct Hb as (src & _ & ->).
    unfold loop_cond in Hc. apply Z.ltb_lt in Hc.
    simpl in IH. destruct IH as [IH1 IH2]; [ lia | ]. split; trivial.
Qed.

Lemma loop_cond_false_iff pop :
  Population.n_srcs pop <= Population.n_gen pop ->
  (loop_cond pop = false <-> Population.n_srcs pop = Population.n_gen pop).
Proof.
  intros Hle. unfold loop_cond. rewrite Z.ltb_ge. lia.
Qed.

Lemma iterates_count ds zs pop w pop' w' :
  iterates R ds zs pop w pop' w' ->
  Z.of_nat (List.length (Population.sources pop)) = Population.n_srcs pop ->
  Z.of_nat (List.length (Population.sources pop')) = Population.n_srcs pop'.
Proof.
  intros Hit Hinv. apply iterates_appends in Hit.
  destruct Hit as (new & _ & ->). simpl.
  rewrite length_app. lia.
Qed.

Lemma loop_entry a ck w pop0 tabs w0 :
  check_input R a = Ok ck ->
  set_up R a ck w = (Ok (pop0, tabs), w0) ->
  Population.n_srcs pop0 = 0 /\
  Population.sources pop0 = [] /\
  Population.n_gen pop0 = int_of (Arg.n_gen a) /\
  1 <= Population.n_gen pop0.
Proof.
  intros Hck Hset.
  pose proof (check_input_ok a ck Hck) as Hv.
  rewrite (check_input_valid a Hv) in Hck. inversion Hck; subst ck; clear Hck.
  apply set_up_inv in Hset.
  destruct Hset as ((Hn & Hs) & (Hg & _) & _). simpl in Hg.
  repeat split; trivial; rewrite Hg.
  unfold args_valid in Hv. repeat (apply andb_prop in Hv; destruct Hv as [Hv _]).
  unfold rule_n_gen in Hv. destruct (Arg.n_gen a); try discriminate.
  simpl. now apply Z.leb_le.
Qed.

(** Every source of a returned population was sampled for that population's
    configuration. *)
Lemma generate_Forall a w pop w' (P : Source.t -> Prop) :
  generate R a w = (Ok pop, w') ->
  (forall ds zs w1 src w2,
      sample_source R pop ds zs w1 = (Ok src, w2) -> P src) ->
  Forall P (Population.sources pop).
Proof.
  intros H HP. apply generate_sources in H.
  destruct H as (ck & pop0 & ds & zs & w0 & _ & _ & Hs & Hpop & _).
  apply sampled_Forall in Hs.
  eapply Forall_impl; [ | exact Hs ].
  intros src (w1 & w2 & Hsrc). apply (HP ds zs w1 src w2).
  rewrite Hpop. rewrite sample_source_with_run. exact Hsrc.
Qed.

(** C1. For every valid configuration [generate] returns (when no imported
    function raises) a population that holds exactly [n_gen] sources, with
    [n_srcs = n_gen]; and at every head of the loop [n_srcs] is at most
    [n_gen], the loop being left exactly when [n_srcs = n_gen]. *)
Theorem generate_returns_n_gen_sources a w :
  args_valid a = true ->
  (never_raises R -> unit_draws R ->
   exists pop w', generate R a w = (Ok pop, w')) /\
  (forall pop w',
      generate R a w = (Ok pop, w') ->
      Population.n_gen pop = int_of (Arg.n_gen a) /\
      Population.n_srcs pop = Population.n_gen pop /\
      Z.of_nat (List.length (Population.sources pop)) = Population.n_gen pop) /\
  (forall ck pop0 ds zs w0 pop1 w1,
      check_input R a = Ok ck ->
      set_up R a ck w = (Ok (pop0, (ds, zs)), w0) ->
      iterates R ds zs pop0 w0 pop1 w1 ->
      Population.n_srcs pop1 <= Population.n_gen pop1 /\
      (loop_cond pop1 = false <->
       Population.n_srcs pop1 = Population.n_gen pop1)).
Proof.
  intros Hv. split; [ | split ].
  - intros Hnr Hu. now apply generate_total.
  - intros pop w' H. apply generate_inv in H.
    destruct H as (ck & pop0 & ds & zs & w0 & Hck & Hset & Hloop).
    destruct (loop_entry _ _ _ _ _ _ Hck Hset) as (Hn & Hs & Hg & Hpos).
    apply sampling_loop_returns in Hloop. destruct Hloop as [Hit Hend].
    destruct (iterates_bounds _ _ _ _ _ _ Hit) as [Hle Hgen]; [ lia | ].
    apply loop_cond_false_iff in Hend; trivial.
    assert (Hcount := iterates_count _ _ _ _ _ _ Hit).
    rewrite Hn, Hs in Hcount. specialize (Hcount eq_refl).
    repeat split; lia.
  - intros ck pop0 ds zs w0 pop1 w1 Hck Hset Hit.
    destruct (loop_entry _ _ _ _ _ _ Hck Hset) as (Hn & Hs & Hg & Hpos).
    destruct (iterates_bounds _ _ _ _ _ _ Hit) as [Hle Hgen]; [ lia | ].
    split; trivial. now apply loop_cond_false_iff.
Qed.

(** C2. Every source of a returned population has
    [dm = dm_mw + dm_igm + dm_host], the sum as the code evaluates it, and
    [dm_host = 100], whatever the arguments were. The two sides are the same
    float; Python's [==] holds of them unless the sum is NaN. *)
Theorem dm_is_the_sum_of_its_parts a w pop w' :
  generate R a w = (Ok pop, w') ->
  Forall
    (fun src =>
       Source.dm src =
         (Source.dm_mw src + Source.dm_igm src + Source.dm_host src)%float /\
       Source.dm_host src = 100%float /\
       (Source.dm src =?
          Source.dm_mw src + Source.dm_igm src + Source.dm_host src)%float
         = negb (is_nan (Source.dm src)))
    (Population.sources pop).
Proof.
  intros H. apply (generate_Forall _ _ _ _ _ H).
  intros ds zs w1 src w2 Hsrc. apply sample_source_inv in Hsrc.
  destruct Hsrc as (_ & Hhost & Hdm & _). repeat split; trivial.
  rewrite <- Hdm. unfold is_nan. now rewrite negb_involutive.
Qed.

(** C9. When the population the loop starts from holds as many sources as
    [n_srcs] counts, so does the population at every head of the loop and
    the one the loop returns; an iteration appends the one source it sampled
    and adds one to [n_srcs]. *)
Theorem loop_keeps_the_count ds zs pop0 w0 :
  Z.of_nat (List.length (Population.sources pop0)) = Population.n_srcs pop0 ->
  (forall pop w,
      iterates R ds zs pop0 w0 pop w ->
      Z.of_nat (List.length (Population.sources pop)) = Population.n_srcs pop) /\
  (forall pop w,
      sampling_loop R ds zs pop0 w0 = (Ok pop, w) ->
      Z.of_nat (List.length (Population.sources pop)) = Population.n_srcs pop) /\
  (forall pop w pop' w',
      loop_body R ds zs pop w = (Ok pop', w') ->
      exists src,
        sample_source R pop ds zs w = (Ok src, w') /\
        Population.sources pop' = (Population.sources pop ++ [src])%list /\
        Population.n_srcs pop' = Population.n_srcs pop + 1).
Proof.
  intros Hinv. split; [ | split ].
  - intros pop w Hit. now apply (iterates_count _ _ _ _ _ _ Hit).
  - intros pop w H. apply sampling_loop_returns in H. destruct H as [Hit _].
    now apply (iterates_count _ _ _ _ _ _ Hit).
  - intros pop w pop' w' H. apply loop_body_spec in H.
    destruct H as (src & Hs & ->). exists src. repeat split; trivial.
Qed.

(** *** Failing checks *)

(** C7. [generate(n_gen=0, ...)] raises the ValueError whose message
    mentions the number of generated sources, whatever the other arguments
    are, and [generate(n_gen=5, electron_model='bogus')] the one whose message
    mentions the electron model; both leave the world as it was, so no call
    was made and no source sampled. *)
Theorem invalid_input_scenarios a w :
  (generate R (Arg.with_n_gen a (VInt 0)) w = (Err (ValueError m_n_gen_pos), w) /\
   contains "number of generated sources" m_n_gen_pos = true) /\
  (generate R (Arg.with_electron_model (Arg.defaults (VInt 5)) (VStr "bogus")) w
     = (Err (ValueError "Unsupported electron model: bogus"), w) /\
   contains "electron model" "Unsupported electron model: bogus" = true).
Proof.
  split; split; try reflexivity.
Qed.

(** C8. Arguments that break a rule of the checks make [generate] raise in
    the world it was called in: nothing was logged, so no population was
    constructed, no lookup table built and no draw made. And whatever
    [generate] returns is a population of [n_gen] sources for arguments that
    meet every rule: a caller never gets a population that is partly
    filled. *)
Theorem invalid_arguments_raise_at_once a w :
  (args_valid a = false ->
   exists e, check_input R a = Err e /\ generate R a w = (Err e, w)) /\
  (forall pop w',
      generate R a w = (Ok pop, w') ->
      args_valid a = true /\
      Population.n_gen pop = int_of (Arg.n_gen a) /\
      Population.n_srcs pop = Population.n_gen pop /\
      Z.of_nat (List.length (Population.sources pop)) = Population.n_gen pop).
Proof.
  split.
  - intros Hv. destruct (check_input_invalid a Hv) as [e He].
    exists e. split; trivial. now apply generate_check_fails.
  - intros pop w' H.
    assert (Hv : args_valid a = true).
    { destruct (generate_inv _ _ _ _ H) as (ck & _ & _ & _ & _ & Hck & _).
      now apply check_input_ok in Hck. }
    split; trivial.
    destruct (generate_inv _ _ _ _ H)
      as (ck & pop0 & ds & zs & w0 & Hck & Hset & Hloop).
    destruct (loop_entry _ _ _ _ _ _ Hck Hset) as (Hn & Hs & Hg & Hpos).
    apply sampling_loop_returns in Hloop. destruct Hloop as [Hit Hend].
    destruct (iterates_bounds _ _ _ _ _ _ Hit) as [Hle Hgen]; [ lia | ].
    apply loop_cond_false_iff in Hend; trivial.
    assert (Hcount := iterates_count _ _ _ _ _ _ Hit).
    rewrite Hn, Hs in Hcount. specialize (Hcount eq_refl).
    repeat split; lia.
Qed.

(** *** The name *)

Lemma check_pars_cases pars n m_items m_len :
  check_pars pars n m_items m_len = Ok tt \/
  check_pars pars n m_items m_len = Err (ValueError m_items) \/
  check_pars pars n m_items m_len = Err (ValueError m_len) \/
  exists m, check_pars pars n m_items m_len = Err (TypeError m).
Proof.
  unfold check_pars, all_float_int.
  destruct pars as [ | b | z | f | s | l | l ]; cbn -[Z.eqb Z.of_nat];
    try (right; right; right; eexists; reflexivity);
    match goal with
    | |- context [forallb ?f ?l] => destruct (forallb f l)
    end; cbn -[Z.eqb Z.of_nat]; auto;
    match goal with
    | |- context [negb ?c] => destruct c
    end; cbn -[Z.eqb Z.of_nat]; auto.
Qed.

(** The check of the name raises when the name, after the default, is not a
    string; no other check raises with its message. *)
Lemma check_input_name_error a :
  check_input R a = Err (ValueError m_name) ->
  type_is_str (if truthy (Arg.name a) then Arg.name a else VStr "Initial")
    = false.
Proof.
  unfold check_input, m_name, m_z_max, m_electron_model. intros He.
  destruct (Arg.n_gen a) as [ | | n | | | | ]; try discriminate He.
  destruct (n <? 1); [ discriminate He | ]. simpl in He.
  destruct (Arg.cosmology a) as [ | c | | | | | ]; try discriminate He.
  destruct (if truthy (Arg.name a) then Arg.name a else VStr "Initial");
    try reflexivity.
  exfalso.
  repeat
    match type of He with
    | context [check_pars ?p ?k ?m1 ?m2] =>
        destruct (check_pars_cases p k m1 m2) as [E | [E | [E | [m E]]]];
        rewrite E in He; clear E; simpl in He; try discriminate He
    | context [raise_if (negb ?c) _] =>
        destruct c; simpl in He; try discriminate He
    end.
Qed.

Lemma check_input_falsy_name a :
  truthy (Arg.name a) = false ->
  check_input R a = check_input R (Arg.with_name a (VStr "Initial")).
Proof.
  intros H. unfold check_input, Arg.with_name.
  cbn [Arg.n_gen Arg.cosmology Arg.cosmo_pars Arg.electron_model
       Arg.emission_pars Arg.lum_dist_pars Arg.name Arg.pulse Arg.si_pars
       Arg.z_max].
  rewrite H. reflexivity.
Qed.

(** C10. A falsy name (None, the empty string, 0, False and the empty list
    are falsy) makes [generate] run as it does with the name ['Initial']:
    the check of the name does not raise and a returned population is named
    ['Initial']. The check of the name raises only for a name that is truthy
    and not a string, and does raise for one when the other arguments meet
    their rules. *)
Theorem falsy_name_becomes_Initial a w :
  Forall (fun v => truthy v = false)
    [VNone; VStr EmptyString; VInt 0; VBool false; VList []] /\
  (truthy (Arg.name a) = false ->
   generate R a w = generate R (Arg.with_name a (VStr "Initial")) w /\
   check_input R a <> Err (ValueError m_name) /\
   (forall pop w',
       generate R a w = (Ok pop, w') -> Population.name pop = "Initial")) /\
  (check_input R a = Err (ValueError m_name) ->
   truthy (Arg.name a) = true /\ type_is_str (Arg.name a) = false) /\
  (truthy (Arg.name a) = true -> type_is_str (Arg.name a) = false ->
   args_valid (Arg.with_name a VNone) = true ->
   generate R a w = (Err (ValueError m_name), w)).
Proof.
  split; [ | split; [ | split ] ].
  - repeat constructor.
  - intros Hf.
    assert (Hrule : rule_name (Arg.name a) = true)
      by (unfold rule_name; now rewrite Hf).
    split; [ | split ].
    + unfold generate.
      rewrite (check_input_falsy_name a Hf). reflexivity.
    + intros He. apply check_input_name_error in He.
      rewrite Hf in He. discriminate.
    + intros pop w' H.
      destruct (generate_inv _ _ _ _ H)
        as (ck & pop0 & ds & zs & w0 & Hck & Hset & Hloop).
      pose proof (check_input_ok a ck Hck) as Hv.
      rewrite (check_input_valid a Hv) in Hck.
      inversion Hck; subst ck; clear Hck.
      apply sampling_loop_returns in Hloop. destruct Hloop as [Hit _].
      apply iterates_appends in Hit. destruct Hit as (new & _ & ->).
      apply set_up_inv in Hset. destruct Hset as (_ & (_ & Hname & _) & _).
      simpl. rewrite Hname. simpl.
      destruct (Arg.name a) as [ | | | | s | | ]; try reflexivity.
      destruct s; [ reflexivity | discriminate Hf ].
  - intros He. apply check_input_name_error in He.
    destruct (truthy (Arg.name a)); [ now split | discriminate ].
  - intros Ht Hs Hv. apply generate_check_fails.
    unfold args_valid in Hv. simpl in Hv.
    apply andb_prop in Hv; destruct Hv as [Hv _].
    apply andb_prop in Hv; destruct Hv as [Hv _].
    apply andb_prop in Hv; destruct Hv as [Hv _].
    apply andb_prop in Hv; destruct Hv as [Hv Vpulse].
    apply andb_prop in Hv; destruct Hv as [Hv Vlum].
    apply andb_prop in Hv; destruct Hv as [Hv Vem].
    apply andb_prop in Hv; destruct Hv as [Hv Vmodel].
    apply andb_prop in Hv; destruct Hv as [Hv Vcp].
    apply andb_prop in Hv; destruct Hv as [Vn Vc].
    unfold check_input.
    destruct (Arg.n_gen a) as [ | | n | | | | ]; try discriminate.
    simpl in Vn. apply Z.leb_le in Vn.
    destruct (n <? 1) eqn:E; [ apply Z.ltb_lt in E; lia | ]. simpl.
    destruct (Arg.cosmology a) as [ | c | | | | | ]; try discriminate.
    rewrite (check_pars_valid _ _ _ _ Vcp). simpl.
    rewrite Vmodel. simpl.
    rewrite (check_pars_valid _ _ _ _ Vem). simpl.
    rewrite (check_pars_valid _ _ _ _ Vlum). simpl.
    rewrite (check_pars_valid _ _ _ _ Vpulse). simpl.
    rewrite Ht.
    destruct (Arg.name a); try reflexivity; discriminate.
Qed.

(** *** The spectral index *)

(** The loop does not read the spectral index parameters. *)
Lemma sampling_loop_with_si ds zs m s pop w :
  sampling_loop R ds zs (Population.with_si pop m s) w =
  map_ok R (fun p => Population.with_si p m s) (sampling_loop R ds zs pop w).
Proof.
  apply (sampling_loop_induction ds zs
           (fun pop w r =>
              sampling_loop R ds zs (Population.with_si pop m s) w =
              map_ok R (fun p => Population.with_si p m s) r)).
  - intros p v Hc. rewrite sampling_loop_step.
    change (loop_cond (Population.with_si p m s)) with (loop_cond p).
    now rewrite Hc.
  - intros p v e v' Hc Hb. rewrite sampling_loop_step.
    change (loop_cond (Population.with_si p m s)) with (loop_cond p).
    rewrite Hc. unfold loop_body, bindM in *.
    change (sample_source R (Population.with_si p m s) ds zs v)
      with (sample_source R p ds zs v).
    destruct (sample_source R p ds zs v) as [[src | e0] v0];
      [ discriminate | ].
    now inversion Hb.
  - intros p v p1 v1 Hc Hb IH. rewrite sampling_loop_step.
    change (loop_cond (Population.with_si p m s)) with (loop_cond p).
    rewrite Hc. unfold loop_body, bindM in *.
    change (sample_source R (Population.with_si p m s) ds zs v)
      with (sample_source R p ds zs v).
    destruct (sample_source R p ds zs v) as [[src | e0] v0];
      [ | discriminate ].
    unfold ret in *. inversion Hb; subst. exact IH.
Qed.

Lemma args_valid_with_si_pars a sp :
  args_valid a = true -> is_numbers 2 sp = true ->
  args_valid (Arg.with_si_pars a sp) = true.
Proof.
  unfold args_valid. simpl. intros H Hsp.
  apply andb_prop in H; destruct H as [H Vz].
  apply andb_prop in H; destruct H as [H _].
  rewrite H, Hsp, Vz. reflexivity.
Qed.

Lemma set_up_with_si_pars a sp ck w pop ds zs w' m s :
  set_up R a ck w = (Ok (pop, (ds, zs)), w') ->
  getitem sp 0 = Ok m -> getitem sp 1 = Ok s ->
  set_up R (Arg.with_si_pars a sp) ck w =
    (Ok (Population.with_si pop m s, (ds, zs)), w').
Proof.
  intros H Hm Hs. unfold set_up in H. run_inv H.
  apply ret_ok in H. destruct H as [H ->]. inversion H; subst; clear H.
  unfold set_up, bindM, construct, lift, ext, ret.
  cbn [Arg.n_gen Arg.cosmology Arg.cosmo_pars Arg.electron_model
       Arg.emission_pars Arg.lum_dist_pars Arg.name Arg.pulse Arg.si_pars
       Arg.z_max Arg.with_si_pars amb log
       Population.cosmology Population.H_0 Population.W_m Population.W_v
       Population.z_max] in *.
  repeat match goal with
         | E : ?l = _ |- context [?l] => rewrite E; cbn [amb log]
         end.
  reflexivity.
Qed.

(** C6. Every source of a returned population has the spectral index -1.4.
    The spectral index parameters are checked and stored in [si_mean] and
    [si_sigma], and that is all: with any other valid pair of them the same
    call, in the same world, returns the same population but for these two
    attributes, hence the same sources, and leaves the same world. *)
Theorem si_is_fixed_and_si_pars_unused a sp w pop w' :
  is_numbers 2 sp = true ->
  generate R a w = (Ok pop, w') ->
  Forall (fun src => Source.si src = (-1.4)%float) (Population.sources pop) /\
  (is_numbers 2 (Arg.si_pars a) = true /\
   getitem (Arg.si_pars a) 0 = Ok (Population.si_mean pop) /\
   getitem (Arg.si_pars a) 1 = Ok (Population.si_sigma pop)) /\
  exists m s,
    getitem sp 0 = Ok m /\ getitem sp 1 = Ok s /\
    generate R (Arg.with_si_pars a sp) w =
      (Ok (Population.with_si pop m s), w').
Proof.
  intros Hsp H. split; [ | split ].
  - apply (generate_Forall _ _ _ _ _ H).
    intros ds zs w1 src w2 Hsrc. apply sample_source_inv in Hsrc.
    tauto.
  - destruct (generate_sources _ _ _ _ H)
      as (ck & pop0 & ds & zs & w0 & Hck & Hset & _ & Hpop & _).
    apply check_input_ok in Hck. apply set_up_inv in Hset.
    destruct Hset as (_ & _ & _ & _ & _ & _ & _ & (Hm & Hs) & _).
    rewrite Hpop. simpl. repeat split; trivial.
    unfold args_valid in Hck.
    apply andb_prop in Hck; destruct Hck as [Hck _].
    apply andb_prop in Hck; destruct Hck as [_ Hck]. exact Hck.
  - destruct (getitem_numbers 2 sp 0 Hsp ltac:(simpl; lia)) as (m & Hm & _).
    destruct (getitem_numbers 2 sp 1 Hsp ltac:(simpl; lia)) as (s & Hs & _).
    exists m, s. repeat split; trivial.
    destruct (generate_inv _ _ _ _ H)
      as (ck & pop0 & ds & zs & w0 & Hck & Hset & Hloop).
    pose proof (check_input_ok a ck Hck) as Hv.
    rewrite (check_input_valid a Hv) in Hck.
    unfold generate, bindM, lift.
    rewrite (check_input_valid _ (args_valid_with_si_pars a sp Hv Hsp)).
    cbn [Arg.n_gen Arg.cosmology Arg.name Arg.with_si_pars].
    inversion Hck; subst ck; clear Hck.
    rewrite (set_up_with_si_pars _ _ _ _ _ _ _ _ _ _ Hset Hm Hs).
    cbn [fst snd]. rewrite sampling_loop_with_si, Hloop. reflexivity.
Qed.

(** *** The maximum volume *)

(** C3. What the code does: [v_max] is what [go.z_to_v] returns for [z_max]
    alone, called in the ambient state [generate] was called in. The
    cosmology parameters are not passed to it, so two calls in the same
    world whose arguments differ in [cosmo_pars] only store the same
    [v_max]. *)
Theorem v_max_ignores_cosmo_pars a cp w pop w' pop2 w2 :
  generate R a w = (Ok pop, w') ->
  generate R (Arg.with_cosmo_pars a cp) w = (Ok pop2, w2) ->
  (exists a1,
      go_z_to_v R (Arg.z_max a) (amb w) = (Ok (Population.v_max pop), a1)) /\
  Population.v_max pop2 = Population.v_max pop.
Proof.
  intros H1 H2.
  destruct (generate_sources _ _ _ _ H1)
    as (ck & pop0 & ds & zs & w0 & _ & Hset & _ & Hpop & _).
  destruct (generate_sources _ _ _ _ H2)
    as (ck' & pop0' & ds' & zs' & w0' & _ & Hset' & _ & Hpop' & _).
  apply set_up_inv in Hset, Hset'.
  destruct Hset as (_ & _ & _ & (a1 & Hv) & _).
  destruct Hset' as (_ & _ & _ & (a1' & Hv') & _).
  simpl in Hv'. rewrite Hv in Hv'. inversion Hv' as [[Heq Ha]].
  rewrite Hpop, Hpop'. simpl. split; eauto.
Qed.

(** *** The luminosity *)

Lemma xcompare_antisym x y c :
  xcompare x y = Some c -> xcompare y x = Some (CompOpp c).
Proof.
  destruct x as [ | sx | mx ex ], y as [ | sy | my ey ]; simpl;
    try discriminate; intros H; inversion H; subst; clear H.
  - now destruct sx, sy.
  - now destruct sx.
  - now destruct sy.
  - unfold fin_compare. rewrite (Z.min_comm ey ex).
    now rewrite (Z.compare_antisym (mx * 2 ^ (ex - Z.min ex ey))).
Qed.

Lemma num_le_antisym a b :
  num_le a b = true -> num_le b a = true -> num_eq b a = true.
Proof.
  unfold num_le, num_eq.
  destruct (xnum_of a) as [x | ], (xnum_of b) as [y | ]; try discriminate.
  destruct (xcompare x y) as [c | ] eqn:E; [ | discriminate ].
  rewrite (xcompare_antisym _ _ _ E).
  destruct c; simpl; trivial; discriminate.
Qed.

(** C5. When [dis.powerlaw] keeps its contract (the value it returns is
    within the bounds it was given), [lum_bol] of every source of a returned
    population is within [[lum_min, lum_max]], the first two items of
    [lum_dist_pars]; and when these two are the same number [L], [lum_bol]
    equals [L] (in Python's comparison of numbers, which is exact). *)
Theorem lum_bol_within_bounds a w pop w' :
  powerlaw_within_bounds R ->
  generate R a w = (Ok pop, w') ->
  (getitem (Arg.lum_dist_pars a) 0 = Ok (Population.lum_min pop) /\
   getitem (Arg.lum_dist_pars a) 1 = Ok (Population.lum_max pop)) /\
  Forall
    (fun src =>
       num_le (Population.lum_min pop) (VFloat (Source.lum_bol src)) = true /\
       num_le (VFloat (Source.lum_bol src)) (Population.lum_max pop) = true)
    (Population.sources pop) /\
  (forall L,
      getitem (Arg.lum_dist_pars a) 0 = Ok L ->
      getitem (Arg.lum_dist_pars a) 1 = Ok L ->
      Forall (fun src => num_eq (VFloat (Source.lum_bol src)) L = true)
        (Population.sources pop)).
Proof.
  intros Hcontract H.
  assert (Hitems :
    getitem (Arg.lum_dist_pars a) 0 = Ok (Population.lum_min pop) /\
    getitem (Arg.lum_dist_pars a) 1 = Ok (Population.lum_max pop)).
  { destruct (generate_sources _ _ _ _ H)
      as (ck & pop0 & ds & zs & w0 & _ & Hset & _ & Hpop & _).
    apply set_up_inv in Hset.
    destruct Hset as (_ & _ & _ & _ & (Hlo & Hhi & _) & _).
    rewrite Hpop. simpl. now split. }
  assert (Hall : Forall
    (fun src =>
       num_le (Population.lum_min pop) (VFloat (Source.lum_bol src)) = true /\
       num_le (VFloat (Source.lum_bol src)) (Population.lum_max pop) = true)
    (Population.sources pop)).
  { apply (generate_Forall _ _ _ _ _ H).
    intros ds zs w1 src w2 Hsrc. apply sample_source_inv in Hsrc.
    destruct Hsrc as (_ & _ & _ & _ & (a0 & a1 & Hlum) & _).
    now apply Hcontract in Hlum. }
  split; [ exact Hitems | split; [ exact Hall | ] ].
  intros L HL0 HL1. destruct Hitems as [Hlo Hhi].
  rewrite HL0 in Hlo. rewrite HL1 in Hhi.
  injection Hlo as Hlo'. injection Hhi as Hhi'.
  eapply Forall_impl; [ | exact Hall ].
  intros src [H1 H2]. rewrite <- Hlo' in H1. rewrite <- Hhi' in H2.
  now apply num_le_antisym.
Qed.

(** *** The directional coordinates and the distance *)

Lemma sampled_drawn_in_turn pop ds zs w srcs w' :
  sampled R pop ds zs w srcs w' ->
  drawn_in_turn R (Population.v_max pop) w srcs w'.
Proof.
  induction 1 as [ | w src w1 srcs w' Hs _ IH ]; [ constructor | ].
  apply sample_source_inv in Hs. destruct Hs as (Hg & _ & _ & _ & _ & Hlog).
  econstructor; eauto.
Qed.

Lemma drawn_in_turn_log v_max w srcs w' :
  drawn_in_turn R v_max w srcs w' ->
  log w' =
    (log w ++ List.concat (map (fun _ => calls_of_a_source) srcs))%list.
Proof.
  induction 1 as [ w | w src w1 srcs w' _ Hlog _ IH ]; simpl.
  - now rewrite app_nil_r.
  - rewrite IH, Hlog. now rewrite <- app_assoc.
Qed.

(** C4. Every source of a returned population has the closed forms on four
    successive draws [U0 .. U3] of [random.random()], made in the state its
    iteration started in: [gb = degrees(asin(U0))], negated when [U1 < 0.5];
    [gl = U2 * 360]; [dist = (v_max * U3 * (3 / (4 * pi))) ** (1 / 3)]. The
    iterations follow one another, each logging exactly the calls of one
    source, so no draw is rejected or made again. With draws of [[0, 1)] and
    [degrees(asin(u))] in [[0, 90]] on them, [gb] is in [[-90, 90]] and [gl]
    in [[0, 360)]. *)
Theorem geometry_is_drawn_in_closed_form a w pop w' :
  generate R a w = (Ok pop, w') ->
  (exists w0,
      log w0 = (log w ++ [CallPopulation; CallZToV; CallDistLookup])%list /\
      drawn_in_turn R (Population.v_max pop) w0 (Population.sources pop) w') /\
  log w' =
    (log w ++ [CallPopulation; CallZToV; CallDistLookup] ++
     List.concat (map (fun _ => calls_of_a_source) (Population.sources pop)))%list /\
  (unit_draws R -> asin_in_degrees R ->
   Forall
     (fun src =>
        ((-90 <=? Source.gb src)%float = true /\
         (Source.gb src <=? 90)%float = true) /\
        ((0 <=? Source.gl src)%float = true /\
         (Source.gl src <? 360)%float = true))
     (Population.sources pop)).
Proof.
  intros H.
  assert (Hdrawn : exists w0,
    log w0 = (log w ++ [CallPopulation; CallZToV; CallDistLookup])%list /\
    drawn_in_turn R (Population.v_max pop) w0 (Population.sources pop) w').
  { destruct (generate_sources _ _ _ _ H)
      as (ck & pop0 & ds & zs & w0 & _ & Hset & Hs & Hpop & _).
    exists w0. apply set_up_inv in Hset.
    destruct Hset as (_ & _ & _ & _ & _ & _ & _ & _ & Hlog).
    split; trivial.
    apply sampled_drawn_in_turn in Hs. rewrite Hpop. exact Hs. }
  split; [ exact Hdrawn | split ].
  - destruct Hdrawn as (w0 & Hlog & Hd).
    apply drawn_in_turn_log in Hd. rewrite Hd, Hlog.
    now rewrite <- app_assoc.
  - intros Hu Hasin. apply (generate_Forall _ _ _ _ _ H).
    intros ds zs w1 src w2 Hsrc. apply sample_source_inv in Hsrc.
    destruct Hsrc as (((x & Hx & Hgb) & Hgl & _) & _).
    split.
    + destruct (draw_unit 0 (amb w1) Hu) as [H0 H1].
      destruct (Hasin _ _ H0 H1 Hx) as [Hd0 Hd90].
      destruct (Binary64.angle_with_sign _ Hd0 Hd90) as [Hplain Hflipped].
      rewrite Hgb. now destruct (draw R 1 (amb w1) <? 0.5)%float.
    + rewrite Hgl. destruct (draw_unit 2 (amb w1) Hu) as [H0 H1].
      now apply Binary64.unit_times_360.
Qed.

(** *** The checks, one parameter after the other *)

Lemma check_pars_eq pars n m_items m_len :
  0 < n ->
  check_pars pars n m_items m_len =
    if is_numbers n pars then Ok tt else Err (pars_error pars m_items m_len).
Proof.
  intros Hn. unfold check_pars, all_float_int, is_numbers, pars_error.
  destruct pars as [ | b | z | f | s | l | l ]; try reflexivity.
  - destruct s as [ | c s ]; [ | reflexivity ].
    cbn -[Z.eqb Z.of_nat]. change (Z.of_nat 0) with 0.
    destruct (0 =? n) eqn:E; [ apply Z.eqb_eq in E; lia | reflexivity ].
  - cbn -[Z.eqb Z.of_nat].
    destruct (forallb isinstance_float_int l); cbn -[Z.eqb Z.of_nat];
      [ | reflexivity ].
    destruct (Z.of_nat (List.length l) =? n); reflexivity.
  - cbn -[Z.eqb Z.of_nat].
    destruct (forallb isinstance_float_int l); cbn -[Z.eqb Z.of_nat];
      [ | reflexivity ].
    destruct (Z.of_nat (List.length l) =? n); reflexivity.
Qed.

(** The checks return what the first broken rule says, and pass when no
    rule is broken. *)
Lemma check_input_first_violated a :
  check_input R a =
    match first_violated a with
    | Some p => Err (error_of R p a)
    | None =>
        Ok {| ck_n_gen := int_of (Arg.n_gen a);
              ck_cosmology := bool_of (Arg.cosmology a);
              ck_name := name_of (Arg.name a) |}
    end.
Proof.
  destruct a as [vn vc vcp vem vep vlp vname vp vsp vz].
  unfold check_input, first_violated, check_order, find.
  cbn [Arg.n_gen Arg.cosmology Arg.cosmo_pars Arg.electron_model
       Arg.emission_pars Arg.lum_dist_pars Arg.name Arg.pulse Arg.si_pars
       Arg.z_max].
  (* n_gen *)
  unfold rule at 1. cbn [Arg.n_gen].
  destruct vn as [ | | n | | | | ]; try reflexivity.
  cbn [rule_n_gen type_is_int int_of]. rewrite Z.ltb_antisym.
  destruct (1 <=? n); [ | reflexivity ].
  cbn [negb raise_if Py.bind].
  (* cosmology *)
  unfold rule at 1.
  cbn [Arg.cosmology]. destruct vc as [ | c | | | | | ]; try reflexivity.
  cbn [type_is_bool negb bool_of].
  (* cosmo_pars *)
  unfold rule at 1.
  cbn [Arg.cosmo_pars Arg.emission_pars Arg.lum_dist_pars Arg.pulse Arg.si_pars].
  rewrite check_pars_eq by lia.
  destruct (is_numbers 3 vcp) eqn:Ecp; [ | reflexivity ].
  cbn [negb Py.bind].
  (* electron_model *)
  unfold rule at 1. cbn [Arg.electron_model].
  destruct (in_strs vem ["ne2001"]); [ | reflexivity ].
  cbn [negb raise_if Py.bind].
  (* emission_pars, lum_dist_pars, pulse *)
  unfold rule at 1.
  cbn [Arg.cosmo_pars Arg.emission_pars Arg.lum_dist_pars Arg.pulse Arg.si_pars].
  rewrite check_pars_eq by lia.
  destruct (is_numbers 2 vep) eqn:Eep; [ | reflexivity ].
  cbn [negb Py.bind].
  unfold rule at 1.
  cbn [Arg.cosmo_pars Arg.emission_pars Arg.lum_dist_pars Arg.pulse Arg.si_pars].
  rewrite check_pars_eq by lia.
  destruct (is_numbers 3 vlp) eqn:Elp; [ | reflexivity ].
  cbn [negb Py.bind].
  unfold rule at 1.
  cbn [Arg.cosmo_pars Arg.emission_pars Arg.lum_dist_pars Arg.pulse Arg.si_pars].
  rewrite check_pars_eq by lia.
  destruct (is_numbers 2 vp) eqn:Ep; [ | reflexivity ].
  cbn [negb Py.bind].
  (* name *)
  unfold rule at 1.
  assert (Hname :
    match (if truthy vname then vname else VStr "Initial") with
    | VStr s => rule_name vname = true /\ s = name_of vname
    | _ => rule_name vname = false
    end).
  { unfold rule_name, name_of.
    destruct vname as [ | b | z | f | s | l | l ]; cbn;
      try (split; reflexivity).
    - destruct b; [ reflexivity | split; reflexivity ].
    - destruct (z =? 0); [ split; reflexivity | reflexivity ].
    - destruct (f =? 0)%float; [ split; reflexivity | reflexivity ].
    - destruct s; split; reflexivity.
    - destruct l; [ split; reflexivity | reflexivity ].
    - destruct l; [ split; reflexivity | reflexivity ]. }
  cbn [Arg.name]. destruct (if truthy vname then vname else VStr "Initial");
    try (rewrite Hname; reflexivity).
  destruct Hname as [-> ->]. cbn [negb].
  (* si_pars *)
  unfold rule at 1.
  cbn [Arg.cosmo_pars Arg.emission_pars Arg.lum_dist_pars Arg.pulse Arg.si_pars].
  rewrite check_pars_eq by lia.
  destruct (is_numbers 2 vsp) eqn:Esp; [ | reflexivity ].
  cbn [negb Py.bind].
  (* z_max *)
  unfold rule at 1.
  cbn [Arg.z_max]. destruct (isinstance_float_int vz); reflexivity.
Qed.

(** What [find] returns is the first item that passes the test. *)
Lemma find_first {A} (f : A -> bool) l x :
  find f l = Some x ->
  exists before after,
    l = (before ++ x :: after)%list /\
    (forall y, In y before -> f y = false) /\ f x = true.
Proof.
  induction l as [ | y l IH ]; [ discriminate | ].
  cbn [find]. destruct (f y) eqn:E.
  - intros H. inversion H; subst. exists [], l.
    repeat split; trivial. intros y [].
  - intros H. destruct (IH H) as (b & c & -> & Hb & Hx).
    exists (y :: b), c. repeat split; trivial.
    intros z [<- | Hz]; auto.
Qed.

(** No rule is broken exactly when the arguments are valid. *)
Lemma first_violated_None a :
  first_violated a = None <-> args_valid a = true.
Proof.
  unfold first_violated, check_order, find, rule, args_valid.
  destruct (rule_n_gen (Arg.n_gen a)); cbn; [ | split; discriminate ].
  destruct (type_is_bool (Arg.cosmology a)); cbn; [ | split; discriminate ].
  destruct (is_numbers 3 (Arg.cosmo_pars a)); cbn; [ | split; discriminate ].
  destruct (in_strs (Arg.electron_model a) ["ne2001"]); cbn;
    [ | split; discriminate ].
  destruct (is_numbers 2 (Arg.emission_pars a)); cbn; [ | split; discriminate ].
  destruct (is_numbers 3 (Arg.lum_dist_pars a)); cbn; [ | split; discriminate ].
  destruct (is_numbers 2 (Arg.pulse a)); cbn; [ | split; discriminate ].
  destruct (rule_name (Arg.name a)); cbn; [ | split; discriminate ].
  destruct (is_numbers 2 (Arg.si_pars a)); cbn; [ | split; discriminate ].
  destruct (isinstance_float_int (Arg.z_max a)); cbn; split;
    (reflexivity || discriminate).
Qed.

(** X1. When some argument breaks the rule of its check, [generate] raises
    the exception of the first such argument in the order the checks are
    written (n_gen, cosmology, cosmo_pars, electron_model, emission_pars,
    lum_dist_pars, pulse, name, si_pars, z_max), whatever the later
    arguments are, and leaves the world as it found it. The exception is a
    ValueError with the message of that check, except for a list of
    parameters that is not iterable, where it is the TypeError of the loop
    over it. *)
Theorem first_broken_rule_decides_the_exception a w p :
  first_violated a = Some p ->
  generate R a w = (Err (error_of R p a), w) /\
  exists before after,
    check_order = (before ++ p :: after)%list /\
    forallb (fun q => rule q a) before = true /\
    rule p a = false.
Proof.
  intros H. split.
  - apply generate_check_fails. rewrite check_input_first_violated, H.
    reflexivity.
  - apply find_first in H. destruct H as (b & c & E & Hb & Hp).
    exists b, c. repeat split; trivial.
    + apply forallb_forall. intros q Hq. apply Hb in Hq.
      now apply negb_false_iff in Hq.
    + now apply negb_true_iff in Hp.
Qed.

(** *** The set-up, on valid arguments *)

Lemma item_numbers k v i :
  is_numbers k v = true -> Z.of_nat i < k -> getitem v i = Ok (item v i).
Proof.
  intros H Hi. destruct (getitem_numbers k v i H Hi) as (x & E & _).
  unfold item. now rewrite E.
Qed.

(** On valid arguments no subscript raises: the set-up goes as far as the
    two imported functions it calls let it. *)
Lemma set_up_valid a ck w :
  args_valid a = true ->
  set_up R a ck w =
    match go_z_to_v R (Arg.z_max a) (amb w) with
    | (Err e, a1) => (Err e, World a1 (log w ++ [CallPopulation; CallZToV]))
    | (Ok v, a1) =>
        match go_dist_lookup R (ck_cosmology ck)
                (item (Arg.cosmo_pars a) 0) (item (Arg.cosmo_pars a) 1)
                (item (Arg.cosmo_pars a) 2) (Arg.z_max a) a1 with
        | (Err e, a2) =>
            (Err e,
             World a2 (log w ++ [CallPopulation; CallZToV; CallDistLookup]))
        | (Ok tabs, a2) =>
            (Ok (configured a ck v, tabs),
             World a2 (log w ++ [CallPopulation; CallZToV; CallDistLookup]))
        end
    end.
Proof.
  unfold args_valid. intros H.
  apply andb_prop in H; destruct H as [H Vz].
  apply andb_prop in H; destruct H as [H Vsi].
  apply andb_prop in H; destruct H as [H Vname].
  apply andb_prop in H; destruct H as [H Vpulse].
  apply andb_prop in H; destruct H as [H Vlum].
  apply andb_prop in H; destruct H as [H Vem].
  apply andb_prop in H; destruct H as [H Vmodel].
  apply andb_prop in H; destruct H as [H Vcp].
  unfold set_up, bindM, construct, lift, ext, ret.
  rewrite (item_numbers 3 _ 0 Vcp), (item_numbers 3 _ 1 Vcp),
    (item_numbers 3 _ 2 Vcp) by (cbn; lia).
  cbn [amb log].
  destruct (go_z_to_v R (Arg.z_max a) (amb w)) as [[v | e] a1];
    [ | now rewrite <- app_assoc ].
  rewrite (item_numbers 3 _ 0 Vlum), (item_numbers 3 _ 1 Vlum),
    (item_numbers 3 _ 2 Vlum), (item_numbers 2 _ 0 Vpulse),
    (item_numbers 2 _ 1 Vpulse), (item_numbers 2 _ 0 Vem),
    (item_numbers 2 _ 1 Vem), (item_numbers 2 _ 0 Vsi),
    (item_numbers 2 _ 1 Vsi) by (cbn; lia).
  cbn [amb log Population.cosmology Population.H_0 Population.W_m
       Population.W_v Population.z_max].
  destruct (go_dist_lookup R (ck_cosmology ck) (item (Arg.cosmo_pars a) 0)
              (item (Arg.cosmo_pars a) 1) (item (Arg.cosmo_pars a) 2)
              (Arg.z_max a) a1) as [[tabs | e] a2];
    rewrite <- !app_assoc; reflexivity.
Qed.

(** What a run that returns went through. *)
Lemma generate_ok_inv a w pop w' :
  generate R a w = (Ok pop, w') ->
  args_valid a = true /\
  exists v a1 ds zs a2,
    go_z_to_v R (Arg.z_max a) (amb w) = (Ok v, a1) /\
    go_dist_lookup R (bool_of (Arg.cosmology a))
      (item (Arg.cosmo_pars a) 0) (item (Arg.cosmo_pars a) 1)
      (item (Arg.cosmo_pars a) 2) (Arg.z_max a) a1 = (Ok (ds, zs), a2) /\
    sampled R (configured a (checked a) v) ds zs
      (World a2 (log w ++ [CallPopulation; CallZToV; CallDistLookup]))
      (Population.sources pop) w' /\
    pop = Population.with_run (configured a (checked a) v)
            (Z.of_nat (List.length (Population.sources pop)))
            (Population.sources pop) /\
    Z.of_nat (List.length (Population.sources pop)) = int_of (Arg.n_gen a).
Proof.
  intros H.
  destruct (generate_sources _ _ _ _ H)
    as (ck & pop0 & ds & zs & w0 & Hck & Hset & Hsrcs & Hpop & Hend).
  pose proof (check_input_ok _ _ Hck) as V. split; [ exact V | ].
  rewrite (check_input_valid _ V) in Hck. injection Hck as <-.
  fold (checked a) in Hset.
  destruct (loop_entry _ _ _ _ _ _ (check_input_valid _ V) Hset)
    as (_ & _ & Hgen & Hpos).
  rewrite (set_up_valid _ _ _ V) in Hset.
  destruct (go_z_to_v R (Arg.z_max a) (amb w)) as [[v | e] a1] eqn:Ez;
    [ | discriminate ].
  cbn [checked ck_cosmology] in Hset.
  destruct (go_dist_lookup R (bool_of (Arg.cosmology a))
              (item (Arg.cosmo_pars a) 0) (item (Arg.cosmo_pars a) 1)
              (item (Arg.cosmo_pars a) 2) (Arg.z_max a) a1)
    as [[tabs | e] a2] eqn:El; [ | discriminate ].
  injection Hset as <- -> <-.
  exists v, a1, ds, zs, a2.
  split; [ reflexivity | split; [ exact El | ] ].
  repeat split; trivial.
  destruct (generate_inv _ _ _ _ H)
    as (ck & pop0 & ds' & zs' & w0 & Hck & Hset & Hloop).
  destruct (loop_entry _ _ _ _ _ _ Hck Hset) as (Hn & Hs & Hgen' & _).
  apply sampling_loop_returns in Hloop. destruct Hloop as [Hit Hc].
  pose proof (iterates_bounds _ _ _ _ _ _ Hit ltac:(lia)) as [Hle Hsame].
  apply (loop_cond_false_iff _ Hle) in Hc.
  apply iterates_count in Hit; [ | rewrite Hs, Hn; reflexivity ].
  congruence.
Qed.

Lemma args_valid_rules a :
  args_valid a = true <-> forall p, rule p a = true.
Proof.
  unfold args_valid. split.
  - intros H.
    apply andb_prop in H; destruct H as [H Vz].
    apply andb_prop in H; destruct H as [H Vsi].
    apply andb_prop in H; destruct H as [H Vname].
    apply andb_prop in H; destruct H as [H Vpulse].
    apply andb_prop in H; destruct H as [H Vlum].
    apply andb_prop in H; destruct H as [H Vem].
    apply andb_prop in H; destruct H as [H Vmodel].
    apply andb_prop in H; destruct H as [H Vcp].
    apply andb_prop in H; destruct H as [Vn Vc].
    intros []; assumption.
  - intros H.
    pose proof (H P_n_gen) as H1. pose proof (H P_cosmology) as H2.
    pose proof (H P_cosmo_pars) as H3. pose proof (H P_electron_model) as H4.
    pose proof (H P_emission_pars) as H5. pose proof (H P_lum_dist_pars) as H6.
    pose proof (H P_pulse) as H7. pose proof (H P_name) as H8.
    pose proof (H P_si_pars) as H9. pose proof (H P_z_max) as H10.
    cbn [rule] in *.
    now rewrite H1, H2, H3, H4, H5, H6, H7, H8, H9, H10.
Qed.

Lemma numbers_2_items v :
  is_numbers 2 v = true -> iter v = Ok [item v 0; item v 1].
Proof.
  unfold is_numbers, iter, item, getitem.
  destruct v as [ | | | | | l | l ]; try discriminate; intros H;
    apply andb_prop in H; destruct H as [_ H]; apply Z.eqb_eq in H;
    destruct l as [ | x [ | y [ | z l ] ] ]; cbn [List.length] in H;
    try lia; reflexivity.
Qed.

Lemma numbers_3_items v :
  is_numbers 3 v = true -> iter v = Ok [item v 0; item v 1; item v 2].
Proof.
  unfold is_numbers, iter, item, getitem.
  destruct v as [ | | | | | l | l ]; try discriminate; intros H;
    apply andb_prop in H; destruct H as [_ H]; apply Z.eqb_eq in H;
    destruct l as [ | x [ | y [ | z [ | t l ] ] ] ]; cbn [List.length] in H;
    try lia; reflexivity.
Qed.

(** X2. A returned population is a record of the arguments of the call:
    [n_gen], [cosmology] and [z_max] are the arguments themselves, the
    electron model is ['ne2001'], the name is the argument or ['Initial'],
    and each list of parameters is, item by item, the attributes it is
    documented to set: (H_0, W_m, W_v), (lum_min, lum_max, lum_pow),
    (w_min, w_max), (f_min, f_max) and (si_mean, si_sigma). No attribute is
    converted, rounded or put in order on the way. *)
Theorem returned_population_records_the_arguments a w pop w' :
  generate R a w = (Ok pop, w') ->
  (Arg.n_gen a = VInt (Population.n_gen pop) /\
   Arg.cosmology a = VBool (Population.cosmology pop) /\
   Population.name pop = name_of (Arg.name a) /\
   Population.electron_model pop = VStr "ne2001" /\
   Population.z_max pop = Arg.z_max a) /\
  iter (Arg.cosmo_pars a)
    = Ok [Population.H_0 pop; Population.W_m pop; Population.W_v pop] /\
  iter (Arg.lum_dist_pars a)
    = Ok [Population.lum_min pop; Population.lum_max pop;
          Population.lum_pow pop] /\
  iter (Arg.pulse a) = Ok [Population.w_min pop; Population.w_max pop] /\
  iter (Arg.emission_pars a)
    = Ok [Population.f_min pop; Population.f_max pop] /\
  iter (Arg.si_pars a)
    = Ok [Population.si_mean pop; Population.si_sigma pop].
Proof.
  intros H. apply generate_ok_inv in H.
  destruct H as (V & v & a1 & ds & zs & a2 & _ & _ & _ & Hpop & _).
  rewrite args_valid_rules in V.
  pose proof (V P_n_gen) as Vn. pose proof (V P_cosmology) as Vc.
  pose proof (V P_electron_model) as Vm.
  pose proof (V P_cosmo_pars) as Vcp. pose proof (V P_lum_dist_pars) as Vlp.
  pose proof (V P_pulse) as Vp. pose proof (V P_emission_pars) as Vep.
  pose proof (V P_si_pars) as Vsp.
  cbn [rule] in *.
  rewrite Hpop.
  cbn [Population.with_run configured checked ck_n_gen ck_cosmology ck_name
       Population.n_gen Population.cosmology Population.name
       Population.electron_model Population.z_max Population.H_0
       Population.W_m Population.W_v Population.lum_min Population.lum_max
       Population.lum_pow Population.w_min Population.w_max
       Population.f_min Population.f_max Population.si_mean
       Population.si_sigma].
  repeat split;
    try (apply numbers_2_items; assumption);
    try (apply numbers_3_items; assumption).
  - destruct (Arg.n_gen a); try discriminate Vn. reflexivity.
  - destruct (Arg.cosmology a); try discriminate Vc. reflexivity.
  - destruct (Arg.electron_model a) as [ | | | | s | | ];
      try discriminate Vm.
    cbn in Vm. rewrite orb_false_r in Vm. apply String.eqb_eq in Vm.
    now subst.
Qed.

(** *** What the imported functions are given *)

Lemma sample_source_derived pop ds zs w src w' :
  sample_source R pop ds zs w = (Ok src, w') ->
  derived R pop ds zs (after_draws R 4 (amb w)) src (amb w').
Proof.
  intros H. unfold sample_source in H. run_inv H.
  apply ret_ok in H. destruct H as [-> ->].
  unfold derived.
  cbn [Source.gb Source.gl Source.dist Source.z Source.gx Source.gy Source.gz
       Source.dm_mw Source.dm_igm Source.w_int Source.lum_bol amb log].
  rewrite <- !surjective_pairing.
  exists x3, x5, x7, x9, x11.
  repeat split; assumption.
Qed.

Lemma sampled_derived_in_turn pop ds zs w srcs w' :
  sampled R pop ds zs w srcs w' ->
  derived_in_turn R pop ds zs (amb w) srcs (amb w').
Proof.
  induction 1 as [ w | w src w1 srcs w' Hsrc _ IH ].
  - constructor.
  - econstructor; [ | exact IH ]. now apply sample_source_derived.
Qed.

Lemma derived_in_turn_with_run pop n l ds zs a srcs a' :
  derived_in_turn R pop ds zs a srcs a' ->
  derived_in_turn R (Population.with_run pop n l) ds zs a srcs a'.
Proof.
  induction 1 as [ a | a src a1 srcs a' Hsrc _ IH ].
  - constructor.
  - econstructor; [ exact Hsrc | exact IH ].
Qed.

(** X3. In a run that returns, [go.z_to_v] is called once, on [z_max], and
    then [go.dist_lookup] once, on the cosmology flag, the three cosmology
    parameters and [z_max], before any source is made. Every source is then
    derived from this one table and from its own draws: its redshift is
    interpolated at its own distance with H_0, its cartesian coordinates and
    its Milky Way dispersion measure come from its own longitude, latitude
    and distance, its intergalactic dispersion measure and its pulse width
    from its own redshift, its luminosity from the three luminosity
    parameters. The calls follow one another, six after the four draws of
    each source, each in the ambient state the one before it left, and the
    last one leaves the state the run ends in. *)
Theorem sources_are_derived_in_turn a w pop w' :
  generate R a w = (Ok pop, w') ->
  exists a1 ds zs a2,
    go_z_to_v R (Population.z_max pop) (amb w)
      = (Ok (Population.v_max pop), a1) /\
    go_dist_lookup R (Population.cosmology pop) (Population.H_0 pop)
      (Population.W_m pop) (Population.W_v pop) (Population.z_max pop) a1
      = (Ok (ds, zs), a2) /\
    derived_in_turn R pop ds zs a2 (Population.sources pop) (amb w').
Proof.
  intros H. apply generate_ok_inv in H.
  destruct H as (V & v & a1 & ds & zs & a2 & Hv & Hl & Hsrcs & Hpop & _).
  exists a1, ds, zs, a2.
  apply sampled_derived_in_turn in Hsrcs. cbn [amb] in Hsrcs.
  rewrite Hpop at 1 2 3 4 5 6 7 8.
  cbn [Population.with_run configured checked ck_cosmology
       Population.cosmology Population.z_max Population.v_max Population.H_0
       Population.W_m Population.W_v].
  repeat split; trivial.
  rewrite Hpop at 1. now apply derived_in_turn_with_run.
Qed.

(** *** The whole function, case by case *)

Lemma generate_cases a w :
  generate R a w =
    match first_violated a with
    | Some p => (Err (error_of R p a), w)
    | None => run_after_checks R a w
    end.
Proof.
  unfold generate, bindM, lift. rewrite check_input_first_violated.
  destruct (first_violated a) as [p | ] eqn:E; [ reflexivity | ].
  apply first_violated_None in E.
  fold (checked a). rewrite (set_up_valid _ _ _ E).
  unfold run_after_checks. cbn [checked ck_cosmology].
  destruct (go_z_to_v R (Arg.z_max a) (amb w)) as [[v | e] a1];
    [ | reflexivity ].
  destruct (go_dist_lookup R (bool_of (Arg.cosmology a))
              (item (Arg.cosmo_pars a) 0) (item (Arg.cosmo_pars a) 1)
              (item (Arg.cosmo_pars a) 2) (Arg.z_max a) a1)
    as [[[ds zs] | e] a2]; reflexivity.
Qed.

(** Arguments that meet the same rules and give the same messages are
    checked alike. *)
Lemma first_violated_ext a b :
  (forall p, rule p b = rule p a) -> first_violated b = first_violated a.
Proof.
  intros H. unfold first_violated, check_order, find. now rewrite !H.
Qed.

Lemma first_violated_rule a p :
  first_violated a = Some p -> rule p a = false.
Proof.
  intros H. apply find_first in H. destruct H as (_ & _ & _ & _ & H).
  now apply negb_true_iff in H.
Qed.

(** *** Populations that differ in what the loop does not read *)

Lemma sampling_loop_map ds zs (f : Population.t -> Population.t) :
  (forall p, loop_cond (f p) = loop_cond p) ->
  (forall p w, sample_source R (f p) ds zs w = sample_source R p ds zs w) ->
  (forall p src, Population.append (f p) src = f (Population.append p src)) ->
  forall pop w,
    sampling_loop R ds zs (f pop) w =
    map_ok R f (sampling_loop R ds zs pop w).
Proof.
  intros Hc Hs Ha.
  apply (sampling_loop_induction ds zs
           (fun pop w r => sampling_loop R ds zs (f pop) w = map_ok R f r)).
  - intros p v E. rewrite sampling_loop_step, Hc, E. reflexivity.
  - intros p v e v' E Hb. rewrite sampling_loop_step, Hc, E.
    unfold loop_body, bindM in *. rewrite Hs.
    destruct (sample_source R p ds zs v) as [[src | e0] v0];
      [ discriminate | ].
    now inversion Hb.
  - intros p v p1 v1 E Hb IH. rewrite sampling_loop_step, Hc, E.
    unfold loop_body, bindM in *. rewrite Hs.
    destruct (sample_source R p ds zs v) as [[src | e0] v0];
      [ | discriminate ].
    unfold ret in *. inversion Hb; subst. rewrite Ha. exact IH.
Qed.

Lemma sampled_ext (f : Population.t -> Population.t) pop ds zs w srcs w' :
  (forall p v, sample_source R (f p) ds zs v = sample_source R p ds zs v) ->
  sampled R pop ds zs w srcs w' -> sampled R (f pop) ds zs w srcs w'.
Proof.
  intros Hs. induction 1 as [ w | w src w1 srcs w' Hsrc _ IH ].
  - constructor.
  - econstructor; [ | exact IH ]. now rewrite Hs.
Qed.

Lemma sampled_split pop ds zs l1 l2 w w' :
  sampled R pop ds zs w (l1 ++ l2) w' ->
  exists w1, sampled R pop ds zs w l1 w1 /\ sampled R pop ds zs w1 l2 w'.
Proof.
  revert w. induction l1 as [ | src l1 IH ]; intros w H.
  - exists w. split; [ constructor | exact H ].
  - cbn [app] in H. inversion H; subst.
    match goal with
    | Hrest : sampled _ _ _ _ _ (l1 ++ l2)%list _ |- _ =>
        destruct (IH _ Hrest) as (w2 & H1 & H2)
    end.
    exists w2. split; [ econstructor; eassumption | exact H2 ].
Qed.

(** The loop, after the sources [l] have been sampled, goes on from the
    population they were appended to. *)
Lemma sampling_loop_after pop ds zs w l w1 :
  sampled R pop ds zs w l w1 ->
  Population.n_srcs pop + Z.of_nat (List.length l) <= Population.n_gen pop ->
  sampling_loop R ds zs pop w =
  sampling_loop R ds zs
    (Population.with_run pop
       (Population.n_srcs pop + Z.of_nat (List.length l))
       (Population.sources pop ++ l)) w1.
Proof.
  intros H. revert pop H.
  assert (Hgen : forall srcs w w1 pop0 pop,
    sampled R pop0 ds zs w srcs w1 ->
    (forall v, sample_source R pop ds zs v = sample_source R pop0 ds zs v) ->
    Population.n_srcs pop + Z.of_nat (List.length srcs)
      <= Population.n_gen pop ->
    sampling_loop R ds zs pop w =
    sampling_loop R ds zs
      (Population.with_run pop
         (Population.n_srcs pop + Z.of_nat (List.length srcs))
         (Population.sources pop ++ srcs)) w1).
  { intros srcs v v1 pop0 pop H. revert pop.
    induction H as [ v | v src v1 srcs v' Hsrc _ IH ]; intros pop Hs Hle.
    - cbn [List.length]. rewrite Z.add_0_r, app_nil_r, with_run_same.
      reflexivity.
    - cbn [List.length] in *.
      rewrite (sampling_loop_step ds zs pop v).
      unfold loop_cond. destruct (Z.ltb_spec (Population.n_srcs pop)
                                    (Population.n_gen pop)); [ | lia ].
      unfold loop_body, bindM, ret. rewrite Hs, Hsrc.
      rewrite (IH (Population.append pop src)).
      + unfold Population.append. rewrite with_run_with_run.
        cbn [Population.with_run Population.n_srcs Population.sources].
        rewrite <- app_assoc. cbn [app]. f_equal. f_equal. lia.
      + intros u. unfold Population.append.
        rewrite sample_source_with_run. apply Hs.
      + cbn [Population.append Population.with_run Population.n_srcs
             Population.n_gen]. lia. }
  intros pop H Hle. apply (Hgen l w w1 pop pop H); trivial.
Qed.

(** *** Arguments the sources do not depend on *)

(** X4. The emission parameters set the attributes [f_min] and [f_max] and
    nothing else. With any other valid pair of them the same call, in the
    same world, does the same in every respect, whether it returns or
    raises: it returns the same population but for these two attributes,
    or raises the same exception, and leaves the same world. *)
Theorem emission_pars_only_set_the_frequencies a ep w :
  is_numbers 2 (Arg.emission_pars a) = true ->
  is_numbers 2 ep = true ->
  generate R (with_emission_pars a ep) w =
  map_ok R (fun pop => with_frequencies pop (item ep 0) (item ep 1))
    (generate R a w).
Proof.
  intros Ha He.
  assert (Hrule : forall p, rule p (with_emission_pars a ep) = rule p a).
  { intros []; try reflexivity. cbn [rule with_emission_pars Arg.emission_pars].
    now rewrite Ha, He. }
  rewrite !generate_cases, (first_violated_ext _ _ Hrule).
  destruct (first_violated a) as [p | ] eqn:E.
  - apply first_violated_rule in E.
    destruct p; try reflexivity. cbn [rule] in E. congruence.
  - unfold run_after_checks.
    cbn [with_emission_pars Arg.z_max Arg.cosmology Arg.cosmo_pars amb log].
    destruct (go_z_to_v R (Arg.z_max a) (amb w)) as [[v | e] a1];
      [ | reflexivity ].
    destruct (go_dist_lookup R (bool_of (Arg.cosmology a))
                (item (Arg.cosmo_pars a) 0) (item (Arg.cosmo_pars a) 1)
                (item (Arg.cosmo_pars a) 2) (Arg.z_max a) a1)
      as [[[ds zs] | e] a2]; [ | reflexivity ].
    change (configured (with_emission_pars a ep)
              (checked (with_emission_pars a ep)) v)
      with (with_frequencies (configured a (checked a) v)
              (item ep 0) (item ep 1)).
    apply (sampling_loop_map ds zs
             (fun pop => with_frequencies pop (item ep 0) (item ep 1)));
      reflexivity.
Qed.

(** X5. Tuples and lists are read alike: with every tuple of parameters
    replaced by the list of its items, the same call in the same world
    returns the same population, or raises the same exception, and leaves
    the same world. *)
Theorem tuples_are_read_as_lists a w :
  generate R (with_lists a) w = generate R a w.
Proof.
  assert (Hnum : forall k v, is_numbers k (as_list v) = is_numbers k v)
    by (intros k []; reflexivity).
  assert (Hitem : forall v i, item (as_list v) i = item v i).
  { intros [] i; try reflexivity. unfold item, as_list, getitem.
    now destruct (nth_error l i). }
  assert (Herr : forall v m1 m2, pars_error (as_list v) m1 m2 = pars_error v m1 m2)
    by (intros [] m1 m2; reflexivity).
  assert (Hrule : forall p, rule p (with_lists a) = rule p a)
    by (intros []; cbn [rule with_lists Arg.n_gen Arg.cosmology Arg.cosmo_pars
          Arg.electron_model Arg.emission_pars Arg.lum_dist_pars Arg.name
          Arg.pulse Arg.si_pars Arg.z_max]; rewrite ?Hnum; reflexivity).
  rewrite !generate_cases, (first_violated_ext _ _ Hrule).
  destruct (first_violated a) as [p | ].
  - destruct p;
      cbn [error_of with_lists Arg.n_gen Arg.cosmology Arg.cosmo_pars
           Arg.electron_model Arg.emission_pars Arg.lum_dist_pars Arg.name
           Arg.pulse Arg.si_pars Arg.z_max]; rewrite ?Herr; reflexivity.
  - unfold run_after_checks, configured, checked.
    cbn [with_lists Arg.n_gen Arg.cosmology Arg.cosmo_pars
         Arg.electron_model Arg.emission_pars Arg.lum_dist_pars Arg.name
         Arg.pulse Arg.si_pars Arg.z_max].
    rewrite !Hitem. reflexivity.
Qed.

(** *** The number of sources asked for *)

(** X6. A run for fewer sources is the beginning of a run for more. When
    the call for [m] sources returns, the call for [n <= m] sources with the
    same other arguments, in the same world, returns as well: its sources
    are the first [n] sources of the longer run, its other attributes but
    [n_gen] are the same, and the longer run samples its remaining sources
    from the world the shorter run ends in. *)
Theorem shorter_run_is_a_prefix a n m w pop w' :
  1 <= n <= m ->
  generate R (Arg.with_n_gen a (VInt m)) w = (Ok pop, w') ->
  exists w1,
    generate R (Arg.with_n_gen a (VInt n)) w =
      (Ok (Population.with_run (with_target pop n) n
             (firstn (Z.to_nat n) (Population.sources pop))), w1) /\
    exists ds zs,
      sampled R pop ds zs w1 (skipn (Z.to_nat n) (Population.sources pop)) w'.
Proof.
  intros Hn H. apply generate_ok_inv in H.
  destruct H as (V & v & a1 & ds & zs & a2 & Hv & Hl & Hsrcs & Hpop & Hlen).
  cbn [Arg.with_n_gen Arg.n_gen Arg.cosmology Arg.cosmo_pars Arg.z_max
       int_of] in Hv, Hl, Hlen.
  assert (Vn : first_violated (Arg.with_n_gen a (VInt n)) = None).
  { apply first_violated_None, args_valid_rules.
    rewrite args_valid_rules in V.
    intros p. specialize (V p). destruct p; try exact V.
    cbn. apply Z.leb_le. lia. }
  rewrite generate_cases, Vn. unfold run_after_checks.
  cbn [Arg.with_n_gen Arg.cosmology Arg.cosmo_pars Arg.z_max].
  rewrite Hv, Hl.
  rewrite <- (firstn_skipn (Z.to_nat n) (Population.sources pop)) in Hsrcs.
  apply sampled_split in Hsrcs. destruct Hsrcs as (w1 & H1 & H2).
  exists w1. split.
  - apply (sampled_ext (fun p => with_target p n)) in H1;
      [ | reflexivity ].
    change (configured (Arg.with_n_gen a (VInt n))
              (checked (Arg.with_n_gen a (VInt n))) v)
      with (with_target (configured (Arg.with_n_gen a (VInt m))
                           (checked (Arg.with_n_gen a (VInt m))) v) n).
    rewrite (sampling_loop_after _ _ _ _ _ _ H1).
    + rewrite sampling_loop_step. unfold loop_cond.
      cbn [Population.with_run Population.n_srcs Population.n_gen
           Population.sources with_target configured checked ck_n_gen
           Arg.with_n_gen Arg.n_gen int_of Population.new_n_srcs
           Population.new_sources app].
      rewrite length_firstn.
      unfold Population.new_n_srcs, Population.new_sources. cbn [app].
      replace (0 + Z.of_nat (Nat.min (Z.to_nat n)
                 (List.length (Population.sources pop)))) with n by lia.
      rewrite Z.ltb_irrefl.
      set (l := firstn (Z.to_nat n) (Population.sources pop)).
      rewrite Hpop. reflexivity.
    + cbn [Population.n_srcs Population.n_gen with_target configured].
      unfold Population.new_n_srcs. rewrite length_firstn. lia.
  - exists ds, zs. rewrite Hpop at 1.
    apply (sampled_ext (fun p => Population.with_run p _ _)); [ | exact H2 ].
    intros p u. now rewrite sample_source_with_run.
Qed.

(** *** Exceptions *)

(** X7. With valid arguments [generate] raises exactly what one of the
    calls it makes raised: it raises [e] if and only if [go.z_to_v] raised
    [e], or [go.dist_lookup] did after it, or fewer than [n_gen] sources had
    been sampled one after the other and the sampling of the next one
    (lines 157-192) raised [e]. Nothing is caught, no subscript of a
    parameter list raises, and the world is left as it was when the
    exception was raised. *)
Theorem a_run_raises_what_it_calls_raised a w e w' :
  args_valid a = true ->
  (generate R a w = (Err e, w') <->
   (exists a1,
      go_z_to_v R (Arg.z_max a) (amb w) = (Err e, a1) /\
      w' = World a1 (log w ++ [CallPopulation; CallZToV])) \/
  (exists v a1 a2,
      go_z_to_v R (Arg.z_max a) (amb w) = (Ok v, a1) /\
      go_dist_lookup R (bool_of (Arg.cosmology a))
        (item (Arg.cosmo_pars a) 0) (item (Arg.cosmo_pars a) 1)
        (item (Arg.cosmo_pars a) 2) (Arg.z_max a) a1 = (Err e, a2) /\
      w' = World a2 (log w ++ [CallPopulation; CallZToV; CallDistLookup])) \/
  (exists v a1 ds zs a2 srcs w1,
      go_z_to_v R (Arg.z_max a) (amb w) = (Ok v, a1) /\
      go_dist_lookup R (bool_of (Arg.cosmology a))
        (item (Arg.cosmo_pars a) 0) (item (Arg.cosmo_pars a) 1)
        (item (Arg.cosmo_pars a) 2) (Arg.z_max a) a1 = (Ok (ds, zs), a2) /\
      sampled R (configured a (checked a) v) ds zs
        (World a2 (log w ++ [CallPopulation; CallZToV; CallDistLookup]))
        srcs w1 /\
      Z.of_nat (List.length srcs) < int_of (Arg.n_gen a) /\
      sample_source R (configured a (checked a) v) ds zs w1 = (Err e, w'))).
Proof.
  intros V. rewrite generate_cases.
  rewrite (proj2 (first_violated_None a) V). unfold run_after_checks.
  destruct (go_z_to_v R (Arg.z_max a) (amb w)) as [[v | e0] a1] eqn:Ez.
  2: { split.
       - intros H. inversion H; subst. left. exists a1. split; reflexivity.
       - intros [(a1' & H & ->) | [(v & a1' & a2 & H & _) |
                  (v & a1' & ds & zs & a2 & srcs & w1 & H & _)]];
           inversion H; subst; reflexivity. }
  destruct (go_dist_lookup R (bool_of (Arg.cosmology a))
              (item (Arg.cosmo_pars a) 0) (item (Arg.cosmo_pars a) 1)
              (item (Arg.cosmo_pars a) 2) (Arg.z_max a) a1)
    as [[[ds zs] | e0] a2] eqn:El.
  2: { split.
       - intros H. inversion H; subst. right. left. exists v, a1, a2.
         repeat split; trivial.
       - intros [(a1' & H & _) | [(v' & a1' & a2' & H & H' & ->) |
                  (v' & a1' & ds & zs & a2' & srcs & w1 & H & H' & _)]];
           inversion H; subst; rewrite El in H'; inversion H'; subst;
           reflexivity. }
  split.
  - intros H. right. right.
    apply sampling_loop_raises in H.
    destruct H as (pop1 & w1 & Hit & Hc & Hb).
    apply iterates_appends in Hit. destruct Hit as (srcs & Hsrcs & ->).
    exists v, a1, ds, zs, a2, srcs, w1. repeat split; trivial.
    + unfold loop_cond in Hc. apply Z.ltb_lt in Hc. exact Hc.
    + unfold loop_body, bindM in Hb.
      rewrite sample_source_with_run in Hb.
      destruct (sample_source R (configured a (checked a) v) ds zs w1)
        as [[src | e1] w2]; [ discriminate | now inversion Hb ].
  - intros [(a1' & H & _) | [(v' & a1' & a2' & H & H' & _) |
             (v' & a1' & ds' & zs' & a2' & srcs & w1 & H & H' & Hs & Hlt & Hr)]];
      try discriminate H; inversion H; subst; rewrite El in H';
      try discriminate H'; inversion H'; subst.
    rewrite (sampling_loop_after _ _ _ _ _ _ Hs);
      [ | cbn [configured checked ck_n_gen Population.n_srcs Population.n_gen];
          unfold Population.new_n_srcs; lia ].
    rewrite sampling_loop_step. unfold loop_cond.
    cbn [Population.with_run Population.n_srcs Population.n_gen configured
         checked ck_n_gen].
    unfold Population.new_n_srcs.
    destruct (Z.ltb_spec (0 + Z.of_nat (List.length srcs))
                (int_of (Arg.n_gen a))); [ | lia ].
    unfold loop_body, bindM. rewrite sample_source_with_run, Hr. reflexivity.
Qed.

(** *** The distance *)

(** X8. When the volume [go.z_to_v] returned is not negative, the base of
    the cube root of line 167 is not negative for any draw, so that [**]
    gives every source a real distance, never a complex one. *)
Theorem distances_are_real a w pop w' :
  unit_draws R -> real_power R ->
  generate R a w = (Ok pop, w') ->
  (Population.v_max pop <? 0)%float = false ->
  Forall (fun src => exists d, Source.dist src = NFloat d)
    (Population.sources pop).
Proof.
  intros Hu Hp H Hv. apply (generate_Forall _ _ _ _ _ H).
  intros ds zs w1 src w2 Hsrc. apply sample_source_inv in Hsrc.
  destruct Hsrc as ((_ & _ & Hd) & _).
  apply Hp in Hd; [ exact Hd | ].
  apply Binary64.mul_not_negative; [ | reflexivity ].
  apply Binary64.mul_not_negative; [ exact Hv | ].
  apply Binary64.leb_zero_not_negative. apply draw_unit, Hu.
Qed.

End Properties.

(* ===================================================================== *)
(** ** The properties on the example runtime *)
(* ===================================================================== *)

Lemma demo_never_raises powerlaw :
  (forall lo hi k a, is_ok (fst (powerlaw lo hi k a)) = true) ->
  never_raises (Demo.runtime_with powerlaw).
Proof.
  intros Hp. unfold never_raises. simpl.
  repeat split; trivial.
  - intros u H0 H1. unfold Demo.asin.
    assert (Hlo : (-1 <=? u)%float = true).
    { rewrite leb_spec in *. unfold SFleb in *.
      change (Prim2SF (-1)) with (S754_finite true 4503599627370496 (-52)).
      change (Prim2SF 0) with (S754_zero false) in H0.
      destruct (Prim2SF u) as [ s | s | | s m e ]; simpl in *; trivial;
        try discriminate; destruct s; trivial; discriminate. }
    assert (Hhi : (u <=? 1)%float = true).
    { rewrite leb_spec. rewrite ltb_spec in H1. unfold SFleb, SFltb in *.
      destruct (SFcompare (Prim2SF u) (Prim2SF 1)) as [ [ | | ] | ];
        trivial; discriminate. }
    rewrite Hlo, Hhi. reflexivity.
  - intros x. unfold Demo.pow. destruct (x <? 0)%float; reflexivity.
Qed.

Lemma demo_unit_draws powerlaw : unit_draws (Demo.runtime_with powerlaw).
Proof.
  intros n. simpl. unfold Demo.draw. destruct (Nat.even n); split; reflexivity.
Qed.

Lemma num_le_refl a b : num_le a b = true -> num_le a a = true.
Proof.
  unfold num_le. destruct (xnum_of a) as [x | ]; [ | discriminate ].
  destruct (xnum_of b) as [y | ]; [ | discriminate ].
  destruct x as [ | s | m e ]; simpl.
  - discriminate.
  - now destruct s.
  - unfold fin_compare. now rewrite Z.compare_refl.
Qed.

Lemma demo_powerlaw_within_bounds :
  powerlaw_within_bounds (Demo.runtime_with Demo.powerlaw_lower).
Proof.
  intros lo hi k a v a'. simpl. unfold Demo.powerlaw_lower.
  destruct lo as [ | | | f | | | ]; try discriminate.
  destruct (num_le (VFloat f) hi) eqn:E; [ | discriminate ].
  intros H. inversion H; subst. split; trivial.
  now apply num_le_refl in E.
Qed.

(** Runs the call of the goal [exists pop w', run = (Ok pop, w') /\ _] and
    leaves what is to show of its result, the run among the hypotheses. *)
Ltac by_running H :=
  match goal with
  | |- exists pop w', ?run = (Ok pop, w') /\ _ =>
      let pop := fresh "pop" in
      let w' := fresh "w'" in
      let e := fresh "e" in
      let Hok := fresh "Hok" in
      assert (Hok : is_ok (fst run) = true) by (vm_compute; reflexivity);
      destruct run as [[pop | e] w'] eqn:H;
      [ clear Hok; exists pop, w'; split; [ reflexivity | ]
      | discriminate Hok ]
  end.

Lemma generate_returns_n_gen_sources_witness :
  args_valid (Arg.defaults (VInt 3)) = true /\
  exists pop w',
    generate Demo.runtime (Arg.defaults (VInt 3)) Demo.start = (Ok pop, w') /\
    Population.n_srcs pop = 3 /\
    List.length (Population.sources pop) = 3%nat.
Proof.
  split; [ reflexivity | ].
  destruct (generate_returns_n_gen_sources Demo.runtime
              (Arg.defaults (VInt 3)) Demo.start eq_refl)
    as (Hreturns & Hcount & _).
  destruct (Hreturns (demo_never_raises Demo.powerlaw_const
                       (fun _ _ _ _ => eq_refl))
              (demo_unit_draws _)) as (pop & w' & H).
  exists pop, w'. split; trivial.
  destruct (Hcount pop w' H) as (Hgen & Hn & Hlen).
  simpl in Hgen. split; lia.
Defined.

Lemma dm_is_the_sum_of_its_parts_witness :
  exists pop w',
    generate Demo.runtime (Arg.defaults (VInt 2)) Demo.start = (Ok pop, w') /\
    Forall
      (fun src =>
         Source.dm src =
           (Source.dm_mw src + Source.dm_igm src + Source.dm_host src)%float /\
         Source.dm_host src = 100%float /\
         (Source.dm src =?
            Source.dm_mw src + Source.dm_igm src + Source.dm_host src)%float
           = negb (is_nan (Source.dm src)))
      (Population.sources pop).
Proof.
  by_running Hrun.
  exact (dm_is_the_sum_of_its_parts Demo.runtime _ _ _ _ Hrun).
Defined.

Lemma loop_keeps_the_count_witness :
  exists pop0 ds zs w0,
    set_up Demo.runtime (Arg.defaults (VInt 2))
      {| ck_n_gen := 2; ck_cosmology := true; ck_name := "Initial" |}
      Demo.start = (Ok (pop0, (ds, zs)), w0) /\
    Z.of_nat (List.length (Population.sources pop0)) = Population.n_srcs pop0 /\
    forall pop w,
      sampling_loop Demo.runtime ds zs pop0 w0 = (Ok pop, w) ->
      Z.of_nat (List.length (Population.sources pop)) = Population.n_srcs pop.
Proof.
  destruct (set_up Demo.runtime (Arg.defaults (VInt 2))
              {| ck_n_gen := 2; ck_cosmology := true; ck_name := "Initial" |}
              Demo.start) as [[[pop0 [ds zs]] | e] w0] eqn:Hrun;
    [ | exfalso; vm_compute in Hrun; discriminate Hrun ].
  exists pop0, ds, zs, w0. split; [ reflexivity | ].
  assert (Hcount :
    Z.of_nat (List.length (Population.sources pop0)) = Population.n_srcs pop0)
    by (vm_compute in Hrun; injection Hrun as <- _ _ _; reflexivity).
  split; [ exact Hcount | ].
  exact (proj1 (proj2 (loop_keeps_the_count Demo.runtime ds zs pop0 w0 Hcount))).
Defined.

Lemma invalid_arguments_raise_at_once_witness :
  args_valid (Arg.with_cosmo_pars (Arg.defaults (VInt 4)) (VInt 70)) = false /\
  exists e,
    generate Demo.runtime
      (Arg.with_cosmo_pars (Arg.defaults (VInt 4)) (VInt 70)) Demo.start
    = (Err e, Demo.start).
Proof.
  split; [ reflexivity | ].
  destruct (proj1 (invalid_arguments_raise_at_once Demo.runtime
                     (Arg.with_cosmo_pars (Arg.defaults (VInt 4)) (VInt 70))
                     Demo.start) eq_refl) as (e & _ & H).
  now exists e.
Defined.

Lemma falsy_name_becomes_Initial_witness :
  truthy (VInt 0) = false /\
  generate Demo.runtime (Arg.with_name (Arg.defaults (VInt 2)) (VInt 0))
    Demo.start
  = generate Demo.runtime
      (Arg.with_name (Arg.with_name (Arg.defaults (VInt 2)) (VInt 0))
         (VStr "Initial"))
      Demo.start.
Proof.
  split; [ reflexivity | ].
  apply (proj1 (proj2 (falsy_name_becomes_Initial Demo.runtime
                         (Arg.with_name (Arg.defaults (VInt 2)) (VInt 0))
                         Demo.start))).
  reflexivity.
Defined.

Lemma si_is_fixed_and_si_pars_unused_witness :
  is_numbers 2 (VList [VFloat 0.5; VInt 2]) = true /\
  exists pop w',
    generate Demo.runtime (Arg.defaults (VInt 2)) Demo.start = (Ok pop, w') /\
    generate Demo.runtime
      (Arg.with_si_pars (Arg.defaults (VInt 2)) (VList [VFloat 0.5; VInt 2]))
      Demo.start
    = (Ok (Population.with_si pop (VFloat 0.5) (VInt 2)), w').
Proof.
  split; [ reflexivity | ].
  by_running Hrun.
  destruct (si_is_fixed_and_si_pars_unused Demo.runtime
              (Arg.defaults (VInt 2)) (VList [VFloat 0.5; VInt 2])
              Demo.start _ _ eq_refl Hrun)
    as (_ & _ & m & s & Hm & Hs & H).
  injection Hm as <-. injection Hs as <-. exact H.
Defined.

Lemma v_max_ignores_cosmo_pars_witness :
  exists pop w',
    generate Demo.runtime (Arg.defaults (VInt 2)) Demo.start = (Ok pop, w') /\
    exists pop2 w2,
      generate Demo.runtime
        (Arg.with_cosmo_pars (Arg.defaults (VInt 2))
           (VList [VInt 50; VFloat 0.3; VFloat 0.7]))
        Demo.start = (Ok pop2, w2) /\
      Population.H_0 pop2 = VInt 50 /\
      Population.H_0 pop = VFloat 69.6 /\
      Population.v_max pop2 = Population.v_max pop.
Proof.
  by_running Hrun. by_running Hrun2.
  split; [ vm_compute in Hrun2; now injection Hrun2 as <- _ | ].
  split; [ vm_compute in Hrun; now injection Hrun as <- _ | ].
  exact (proj2 (v_max_ignores_cosmo_pars Demo.runtime _ _ _ _ _ _ _
                  Hrun Hrun2)).
Defined.

Lemma lum_bol_within_bounds_witness :
  exists pop w',
    generate (Demo.runtime_with Demo.powerlaw_lower)
      (Arg.with_lum_dist_pars (Arg.defaults (VInt 2))
         (VList [VFloat 1e45; VFloat 1e45; VInt 0]))
      (World (R := Demo.runtime_with Demo.powerlaw_lower) 0%nat [])
    = (Ok pop, w') /\
    Forall (fun src => num_eq (VFloat (Source.lum_bol src)) (VFloat 1e45) = true)
      (Population.sources pop).
Proof.
  by_running Hrun.
  exact (proj2 (proj2 (lum_bol_within_bounds _ _ _ _ _
                         demo_powerlaw_within_bounds Hrun))
           (VFloat 1e45) eq_refl eq_refl).
Defined.

Lemma demo_asin_in_degrees powerlaw :
  asin_in_degrees (Demo.runtime_with powerlaw).
Proof.
  intros u x _ _ _. simpl. unfold Demo.degrees.
  destruct (x <? 0.5)%float; split; reflexivity.
Qed.

Lemma geometry_is_drawn_in_closed_form_witness :
  exists pop w',
    generate Demo.runtime (Arg.defaults (VInt 2)) Demo.start = (Ok pop, w') /\
    log w' =
      ([CallPopulation; CallZToV; CallDistLookup] ++
       calls_of_a_source ++ calls_of_a_source)%list /\
    Forall
      (fun src =>
         ((-90 <=? Source.gb src)%float = true /\
          (Source.gb src <=? 90)%float = true) /\
         ((0 <=? Source.gl src)%float = true /\
          (Source.gl src <? 360)%float = true))
      (Population.sources pop).
Proof.
  by_running Hrun.
  destruct (geometry_is_drawn_in_closed_form Demo.runtime _ _ _ _ Hrun)
    as (_ & Hlog & Hbounds).
  split; [ | exact (Hbounds (demo_unit_draws _) (demo_asin_in_degrees _)) ].
  rewrite Hlog. vm_compute in Hrun. injection Hrun as <- _. reflexivity.
Defined.

Lemma demo_real_power powerlaw : real_power (Demo.runtime_with powerlaw).
Proof.
  intros x y r Hx. simpl. unfold Demo.pow. rewrite Hx.
  intros H. inversion H. eauto.
Qed.

Lemma first_broken_rule_decides_the_exception_witness :
  first_violated
    (Arg.with_cosmo_pars (Arg.with_name (Arg.defaults (VInt 3)) (VInt 7)) VNone)
    = Some P_cosmo_pars /\
  generate Demo.runtime
    (Arg.with_cosmo_pars (Arg.with_name (Arg.defaults (VInt 3)) (VInt 7)) VNone)
    Demo.start
    = (Err (TypeError "'NoneType' object is not iterable"), Demo.start).
Proof.
  split; [ reflexivity | ].
  exact (proj1 (first_broken_rule_decides_the_exception Demo.runtime
                  (Arg.with_cosmo_pars
                     (Arg.with_name (Arg.defaults (VInt 3)) (VInt 7)) VNone)
                  Demo.start P_cosmo_pars eq_refl)).
Defined.

Lemma returned_population_records_the_arguments_witness :
  exists pop w',
    generate Demo.runtime
      (Arg.with_name (Arg.defaults (VInt 2)) (VStr "thin disk")) Demo.start
      = (Ok pop, w') /\
    Population.name pop = "thin disk" /\
    Population.n_gen pop = 2 /\
    [Population.H_0 pop; Population.W_m pop; Population.W_v pop]
      = [VFloat 69.6; VFloat 0.286; VFloat 0.714] /\
    [Population.w_min pop; Population.w_max pop] = [VFloat 0.1; VInt 5].
Proof.
  by_running Hrun.
  destruct (returned_population_records_the_arguments Demo.runtime _ _ _ _ Hrun)
    as ((Hn & _ & Hname & _) & Hcp & _ & Hp & _).
  cbn in Hn, Hname, Hcp, Hp.
  repeat split; congruence.
Defined.

Lemma sources_are_derived_in_turn_witness :
  exists pop w',
    generate Demo.runtime (Arg.defaults (VInt 2)) Demo.start = (Ok pop, w') /\
    exists a1 ds zs a2,
      go_z_to_v Demo.runtime (Population.z_max pop) (amb Demo.start)
        = (Ok (Population.v_max pop), a1) /\
      go_dist_lookup Demo.runtime (Population.cosmology pop)
        (Population.H_0 pop) (Population.W_m pop) (Population.W_v pop)
        (Population.z_max pop) a1
        = (Ok (ds, zs), a2) /\
      derived_in_turn Demo.runtime pop ds zs a2 (Population.sources pop)
        (amb w').
Proof.
  by_running Hrun.
  exact (sources_are_derived_in_turn Demo.runtime _ _ _ _ Hrun).
Defined.

Lemma emission_pars_only_set_the_frequencies_witness :
  is_numbers 2 (Arg.emission_pars (Arg.defaults (VInt 2))) = true /\
  is_numbers 2 (VTuple [VInt 400; VFloat 800]) = true /\
  generate Demo.runtime
    (with_emission_pars (Arg.defaults (VInt 2)) (VTuple [VInt 400; VFloat 800]))
    Demo.start =
  map_ok Demo.runtime
    (fun pop => with_frequencies pop (VInt 400) (VFloat 800))
    (generate Demo.runtime (Arg.defaults (VInt 2)) Demo.start).
Proof.
  split; [ reflexivity | split; [ reflexivity | ] ].
  exact (emission_pars_only_set_the_frequencies Demo.runtime
           (Arg.defaults (VInt 2)) (VTuple [VInt 400; VFloat 800]) Demo.start
           eq_refl eq_refl).
Defined.

Lemma shorter_run_is_a_prefix_witness :
  exists pop w',
    generate Demo.runtime (Arg.with_n_gen (Arg.defaults (VInt 1)) (VInt 3))
      Demo.start = (Ok pop, w') /\
    exists w1,
      generate Demo.runtime (Arg.with_n_gen (Arg.defaults (VInt 1)) (VInt 2))
        Demo.start =
        (Ok (Population.with_run (with_target pop 2) 2
               (firstn 2 (Population.sources pop))), w1) /\
      exists ds zs,
        sampled Demo.runtime pop ds zs w1
          (skipn 2 (Population.sources pop)) w'.
Proof.
  by_running Hrun.
  exact (shorter_run_is_a_prefix Demo.runtime (Arg.defaults (VInt 1)) 2 3
           Demo.start _ _ ltac:(lia)
           Hrun).
Defined.

Lemma a_run_raises_what_it_calls_raised_witness :
  args_valid
    (Arg.with_lum_dist_pars (Arg.defaults (VInt 2))
       (VList [VInt 1; VInt 2; VInt 3])) = true /\
  generate (Demo.runtime_with Demo.powerlaw_lower)
    (Arg.with_lum_dist_pars (Arg.defaults (VInt 2))
       (VList [VInt 1; VInt 2; VInt 3]))
    (World (R := Demo.runtime_with Demo.powerlaw_lower) 0%nat []) =
  (Err (TypeError "powerlaw: float expected"),
   World (R := Demo.runtime_with Demo.powerlaw_lower) 4%nat
     ([CallPopulation; CallZToV; CallDistLookup] ++ calls_of_a_source)).
Proof.
  split; [ reflexivity | ].
  apply (proj2 (a_run_raises_what_it_calls_raised
                  (Demo.runtime_with Demo.powerlaw_lower)
                  (Arg.with_lum_dist_pars (Arg.defaults (VInt 2))
                     (VList [VInt 1; VInt 2; VInt 3]))
                  _ _ _ eq_refl)).
  right. right.
  exists 1000%float, 0%nat, [0; 1]%float, [0; 2.5]%float, 0%nat, [],
    (World (R := Demo.runtime_with Demo.powerlaw_lower) 0%nat
       [CallPopulation; CallZToV; CallDistLookup]).
  repeat split. constructor.
Defined.

Lemma distances_are_real_witness :
  exists pop w',
    generate Demo.runtime (Arg.defaults (VInt 2)) Demo.start = (Ok pop, w') /\
    Forall (fun src => exists d, Source.dist src = NFloat d)
      (Population.sources pop).
Proof.
  by_running Hrun.
  apply (distances_are_real Demo.runtime _ _ _ _
           (demo_unit_draws _) (demo_real_power _) Hrun).
  destruct (generate_ok_inv _ _ _ _ _ Hrun)
    as (_ & v & a1 & ds & zs & a2 & Hv & _ & _ & Hpop & _).
  rewrite Hpop. cbn [Population.with_run Population.v_max configured].
  cbn in Hv. unfold Demo.const in Hv. injection Hv as <- _. reflexivity.
Defined.

(* ===================================================================== *)
(** ** Examples *)
(* ===================================================================== *)

Example check_input_defaults :
  check_input Demo.runtime (Arg.defaults (VInt 7)) =
  Ok {| ck_n_gen := 7; ck_cosmology := true; ck_name := "Initial" |}.
Proof. reflexivity. Qed.

(** [True] is not of type [int]. *)
Example check_input_n_gen_True :
  check_input Demo.runtime (Arg.defaults (VBool true)) =
  Err (ValueError m_n_gen_int).
Proof. reflexivity. Qed.

(** A value that is not iterable fails with the TypeError of the loop over
    it, not with a ValueError. *)
Example check_input_cosmo_pars_int :
  check_input Demo.runtime
    (Arg.with_cosmo_pars (Arg.defaults (VInt 7)) (VInt 70)) =
  Err (TypeError "'int' object is not iterable").
Proof. reflexivity. Qed.

(** The empty string has no item that is not a number, and no item. *)
Example check_input_cosmo_pars_empty_string :
  check_input Demo.runtime
    (Arg.with_cosmo_pars (Arg.defaults (VInt 7)) (VStr EmptyString)) =
  Err (ValueError "Please ensure there are three cosmology parameters").
Proof. reflexivity. Qed.

Example check_input_name_int :
  check_input Demo.runtime (Arg.with_name (Arg.defaults (VInt 7)) (VInt 3)) =
  Err (ValueError m_name).
Proof. reflexivity. Qed.

Example check_input_name_given :
  check_input Demo.runtime
    (Arg.with_name (Arg.defaults (VInt 7)) (VStr "example")) =
  Ok {| ck_n_gen := 7; ck_cosmology := true; ck_name := "example" |}.
Proof. reflexivity. Qed.

(** The largest float below 1 gives the largest longitude. *)
Example largest_longitude :
  (0x1.fffffffffffffp-1 * 360 = 0x1.67fffffffffffp+8)%float.
Proof. reflexivity. Qed.

Example generate_one_source :
  option_map Population.sources
    (match fst (generate Demo.runtime (Arg.defaults (VInt 1)) Demo.start) with
     | Ok pop => Some pop
     | Err _ => None
     end) =
  Some [{| Source.gb := 14.5; Source.gl := 90;
           Source.dist := NFloat (sqrt (1000 * 0.75 * (3 / (4 * math_pi))));
           Source.z := 1.5;
           Source.gx := 1; Source.gy := 2; Source.gz := 3;
           Source.dm_mw := 30; Source.dm_igm := 1200; Source.dm_host := 100;
           Source.dm := 1330;
           Source.w_int := 2.5; Source.lum_bol := 1e45;
           Source.si := -1.4 |}%float].
Proof. vm_compute. reflexivity. Qed.
